(** * ParkPulse: tiled vehicle detection and reliability-gated capacity estimate

    A shallow embedding of [parkpulse/estimate.py], of the tiling, the
    post-processing and the error flow of [parkpulse/detect.py], and of the
    per-area estimate computed in [app.py].

    Conventions of the embedding:
    - Python [int] is [Z];
    - Python [float] (and the numpy / torch float arrays) is modelled by the
      exact rationals [Q]: every arithmetic operation is the exact one, so
      rounding error, overflow to infinity and NaN are outside that model.
      It serves the properties of order and of structure;
    - where the rounding of a quotient or an overflow decides what the code
      returns or raises, the float is the IEEE 754 binary64 number itself
      (module [B64], over [SpecFloat]);
    - a raised exception is the [Raise] branch of [result];
    - the detection model (Ultralytics YOLO) is an opaque function from a
      tile window to raw boxes, or to a raised exception. *)

From Stdlib Require Import ZArith QArith Qround List Bool String Ascii Lia.
From Stdlib Require Import DecimalString Sorted Permutation Lqa SpecFloat.
From Equations Require Import Equations.
Import ListNotations.

Open Scope Z_scope.

(** ** Python exceptions and results *)

(** [ValueError] is raised by [estimate.py] and by [math.ceil] on a NaN;
    [OverflowError] and [ZeroDivisionError] are raised by the float
    operations of Python; [RuntimeError] stands for whatever a model call
    raises; [ConfigurationError] is named by the specification only, no line
    of the sources raises it. *)
Inductive exn : Type :=
| ValueError (msg : string)
| ConfigurationError (msg : string)
| RuntimeError (msg : string)
| OverflowError (msg : string)
| ZeroDivisionError (msg : string).

Inductive result (A : Type) : Type :=
| Ok (a : A)
| Raise (e : exn).

Arguments Ok {A} a.
Arguments Raise {A} e.

Definition bind {A B : Type} (r : result A) (k : A -> result B) : result B :=
  match r with
  | Ok a => k a
  | Raise e => Raise e
  end.

Notation "x <- r ;; k" := (bind r (fun x => k))
  (at level 61, r at next level, right associativity).

(** ** Python numeric built-ins over the rational model *)

Module Py.

(** [int(x)] on a float: truncation toward zero. *)
Definition int (x : Q) : Z := Z.quot (Qnum x) (Zpos (Qden x)).

(** [math.ceil(x)]. *)
Definition ceil (x : Q) : Z := Qceiling x.

(** [x // y] on floats: the floor of the quotient, as a float. *)
Definition floordiv (x y : Q) : Q := inject_Z (Qfloor (x / y)).

Definition ltb (x y : Q) : bool := negb (Qle_bool y x).
Definition leb (x y : Q) : bool := Qle_bool x y.

(** [max(a, b)] and [min(a, b)] return the first argument unless the second
    one is strictly larger (resp. smaller). *)
Definition max (a b : Q) : Q := if ltb a b then b else a.
Definition min (a b : Q) : Q := if ltb b a then b else a.

(** [round(x)] with one argument: nearest integer, ties to the even one. *)
Definition round (x : Q) : Z :=
  let f := Qfloor x in
  let r := (x - inject_Z f)%Q in
  if ltb r (1 # 2) then f
  else if ltb (1 # 2) r then f + 1
  else if Z.even f then f else f + 1.

(** [abs] on an [int]. *)
Definition abs (x : Z) : Z := Z.abs x.

End Py.

(** ** parkpulse/estimate.py *)

(** Over the exact rationals.  The quotient of the code is a binary64
    division, which rounds and may overflow: [B64.estimate_spots_from_cars]
    below is the function on the floats themselves. *)
Definition estimate_spots_from_cars (n_cars : Z) (occupancy : Q) : result Z :=
  if Py.leb occupancy 0 || Py.ltb 1 occupancy then
    Raise (ValueError "occupancy must be in (0, 1]")
  else if n_cars <? 0 then
    Raise (ValueError "n_cars must be non-negative")
  else
    Ok (Z.max n_cars (Py.ceil (inject_Z n_cars / occupancy))).

(** Over the exact rationals: the float floor division of the code agrees
    with it as long as the quotient is exact in binary64, and [int] raises
    [OverflowError] on an infinite quotient, which has no counterpart here. *)
Definition estimate_spots_from_area (area_m2 m2_per_spot : Q) : result Z :=
  if Py.leb m2_per_spot 0 then
    Raise (ValueError "m2_per_spot must be positive")
  else if Py.ltb area_m2 0 then
    Raise (ValueError "area_m2 must be non-negative")
  else
    Ok (Z.max 0 (Py.int (Py.floordiv area_m2 m2_per_spot))).

(** Default of the keyword argument [m2_per_spot]. *)
Definition default_m2_per_spot : Q := 30.

(** ** Binary64 arithmetic *)

(** The exact rationals above stand for the floats wherever a property is
    one of order or of structure.  Where the rounding of a quotient or the
    overflow to infinity decides what the code returns, the float is the
    binary64 number itself: a [spec_float] with 53 bits of precision and the
    exponent range of the IEEE 754 double, with the correctly rounded
    operations of the standard library. *)
Module B64.

Definition prec : Z := 53.
Definition emax : Z := 1024.

Definition float : Type := spec_float.

Definition zero : float := S754_zero false.

(** The double nearest to an integer (ties to even), infinite beyond the
    range. *)
Definition of_Z (z : Z) : float := binary_normalize prec emax z 0 false.

Definition one : float := of_Z 1.

(** The float literal [a/b] written in decimal, e.g. [0.6] for 6 and 10: the
    double nearest to the quotient of two small integers. *)
Definition literal (a b : Z) : float := SFdiv prec emax (of_Z a) (of_Z b).

(** The least positive double, [5e-324]. *)
Definition min_subnormal : float := S754_finite false 1 (-1074).

(** The rational number that a finite float denotes. *)
Definition value (x : float) : Q :=
  match x with
  | S754_finite s m e =>
      match e with
      | Zneg p => Qmake (cond_Zopp s (Zpos m)) (Pos.pow 2 p)
      | _ => inject_Z (cond_Zopp s (Zpos m) * 2 ^ e)
      end
  | _ => 0%Q
  end.

Definition is_finite (x : float) : bool :=
  match x with
  | S754_zero _ | S754_finite _ _ _ => true
  | _ => false
  end.

(** The conversion of an [int] operand of a float operation. *)
Definition of_int (n : Z) : result float :=
  match of_Z n with
  | S754_infinity _ => Raise (OverflowError "int too large to convert to float")
  | x => Ok x
  end.

(** [x / y] on floats. *)
Definition truediv (x y : float) : result float :=
  match y with
  | S754_zero _ => Raise (ZeroDivisionError "float division by zero")
  | _ => Ok (SFdiv prec emax x y)
  end.

(** [math.ceil(x)]. *)
Definition ceil (x : float) : result Z :=
  match x with
  | S754_nan => Raise (ValueError "cannot convert float NaN to integer")
  | S754_infinity _ =>
      Raise (OverflowError "cannot convert float infinity to integer")
  | _ => Ok (Qceiling (value x))
  end.

(** [x <= y] and [x < y] on floats: false when an operand is NaN. *)
Definition leb (x y : float) : bool := SFleb x y.
Definition ltb (x y : float) : bool := SFltb x y.

(** [estimate_spots_from_cars] of [parkpulse/estimate.py] on an [int] and a
    binary64 occupancy. *)
Definition estimate_spots_from_cars (n_cars : Z) (occupancy : float) : result Z :=
  if leb occupancy zero || ltb one occupancy then
    Raise (ValueError "occupancy must be in (0, 1]")
  else if n_cars <? 0 then
    Raise (ValueError "n_cars must be non-negative")
  else
    x <- of_int n_cars ;;
    q <- truediv x occupancy ;;
    c <- ceil q ;;
    Ok (Z.max n_cars c).

End B64.

(** ** app.py: the per-area estimate *)

(** Policy constants of [app.py]. *)
Definition min_coverage_const : Q := 5 # 100.
Definition blend_strength_const : Q := 6 # 10.

(** [capacity_uncertainty], lines 236-237. *)
Definition capacity_uncertainty (spots_from_area spots_from_cars : Z) : Z :=
  let spread := Py.abs (spots_from_area - spots_from_cars) in
  Z.max 1
    (Py.round
       (Py.max (inject_Z spread / 2)
               ((2 # 10) * inject_Z (spots_from_area + spots_from_cars) / 2))).

(** [coverage], line 247. *)
Definition coverage (n_cars spots_from_area : Z) : Q :=
  if spots_from_area >? 0 then (inject_Z n_cars / inject_Z spots_from_area)%Q
  else 0%Q.

Inductive reliability : Type :=
| Unreliable                 (* "Detection unreliable -> using area-based estimate" *)
| Blended (weight_cars : Q). (* "Detection OK -> blended (cars weight=...)" *)

Record Blend : Type := mkBlend {
  combined : Z;
  weight_cars : Q;
  reliability_note : reliability
}.

Definition ramp_of (cov occupancy min_coverage : Q) : Q :=
  let denom := Py.max (1 # 1000000) (occupancy - min_coverage) in
  Py.min 1 (Py.max 0 ((cov - min_coverage) / denom)).

(** Reliability gating and weighted blending, lines 246-259, over the exact
    rationals: the weighted sum that the code rounds is a binary64 value, so
    on a sum that is an exact tie the two may round to different sides. *)
Definition blend (n_cars spots_from_area spots_from_cars : Z)
                 (occupancy min_coverage blend_strength : Q) : Blend :=
  let cov := coverage n_cars spots_from_area in
  if (n_cars =? 0) || Py.ltb cov min_coverage then
    mkBlend spots_from_area 0 Unreliable
  else
    let ramp := ramp_of cov occupancy min_coverage in
    let w := (blend_strength * ramp)%Q in
    mkBlend
      (Py.round ((1 - w) * inject_Z spots_from_area + w * inject_Z spots_from_cars))
      w (Blended w).

(** Derived metrics, lines 262-265. *)
Record AreaEstimate : Type := mkAreaEstimate {
  n_cars_of : Z;
  spots_from_cars_of : Z;
  spots_from_area_of : Z;
  uncertainty_of : Z;
  blend_of : Blend;
  capacity : Z;
  occupied : Z;
  free_spots : Z;
  occupancy_pct : Q
}.

(** The estimate of one area, lines 222-265, from the number of detections
    and the polygon's area. *)
Definition estimate_area (n_cars : Z) (area_m2 occupancy min_coverage blend_strength : Q)
  : result AreaEstimate :=
  spots_from_cars <- estimate_spots_from_cars n_cars occupancy ;;
  spots_from_area <- estimate_spots_from_area area_m2 default_m2_per_spot ;;
  let b := blend n_cars spots_from_area spots_from_cars
                 occupancy min_coverage blend_strength in
  let capacity := Z.max 0 (combined b) in
  let occupied := Z.max 0 n_cars in
  let free_spots := Z.max 0 (capacity - occupied) in
  let occupancy_pct :=
    if capacity >? 0 then (inject_Z occupied / inject_Z capacity)%Q else 0%Q in
  Ok (mkAreaEstimate n_cars spots_from_cars spots_from_area
        (capacity_uncertainty spots_from_area spots_from_cars)
        b capacity occupied free_spots occupancy_pct).

(** ** parkpulse/detect.py: tiling *)

(** [range(start, stop, step)] for a positive [step]: CPython computes the
    length first and then yields [start + i * step]. *)
Definition range_len (start stop step : Z) : Z :=
  if start <? stop then (stop - start - 1) / step + 1 else 0.

Definition py_range (start stop step : Z) : list Z :=
  map (fun i => start + Z.of_nat i * step)
      (seq 0 (Z.to_nat (range_len start stop step))).

(** The window [image[y0:y1, x0:x1]] handed to the model. *)
Record Tile : Type := mkTile { t_x0 : Z; t_y0 : Z; t_x1 : Z; t_y1 : Z }.

Definition tile_step (tile overlap : Z) : Z := Z.max 1 (tile - overlap).

(** The windows visited by the two nested loops of [detect_cars]
    (lines 85-95), in the order they are visited. *)
Definition tile_windows (H W tile overlap : Z) : list Tile :=
  let step := tile_step tile overlap in
  flat_map
    (fun y0 =>
       map (fun x0 =>
              let y1 := Z.min (y0 + tile) H in
              let x1 := Z.min (x0 + tile) W in
              mkTile x0 y0 x1 y1)
           (py_range 0 W step))
    (py_range 0 H step).

(** Pixel [(y, x)] lies in the window of tile [t]. *)
Definition in_tile (t : Tile) (y x : Z) : Prop :=
  t_y0 t <= y < t_y1 t /\ t_x0 t <= x < t_x1 t.

Definition in_tileb (t : Tile) (y x : Z) : bool :=
  (t_y0 t <=? y) && (y <? t_y1 t) && (t_x0 t <=? x) && (x <? t_x1 t).

(** ** parkpulse/detect.py: boxes and the detection model *)

(** One row of [r.boxes.xyxy]. *)
Record Box : Type := mkBox { b_x1 : Q; b_y1 : Q; b_x2 : Q; b_y2 : Q }.

(** One raw detection: a row of [boxes], [scores] and [clses]. *)
Record RawDet : Type := mkRawDet { r_box : Box; r_score : Q; r_cls : Q }.

(** The dictionaries returned by [detect_cars]. *)
Record Detection : Type := mkDetection {
  x1 : Z; y1 : Z; x2 : Z; y2 : Z;
  conf : Q;
  cls_id : Z;
  cls_name : string
}.

(** Keyword arguments handed to [model.predict]. *)
Record PredictArgs : Type := mkPredictArgs {
  p_conf : Q; p_iou : Q; p_imgsz : Z; p_max_det : Z
}.

(** The loaded model.  The image is fixed during one call of [detect_cars],
    so the patch [image_rgb_up[y0:y1, x0:x1]] is identified with its window.
    [predict] returns the rows of [r.boxes] (the empty list when [r.boxes] is
    [None] or empty) or raises.  [names] is the dictionary [model.names]. *)
Record Model : Type := mkModel {
  predict : Tile -> PredictArgs -> result (list RawDet);
  names : Z -> option string
}.

Definition VEHICLE_CLASS_NAMES : list string :=
  ["car"; "van"; "truck"; "bus"; "motor"]%string.

(** [str.lower] on ASCII letters. *)
Definition lower_ascii (c : ascii) : ascii :=
  let n := nat_of_ascii c in
  if (65 <=? n)%nat && (n <=? 90)%nat then ascii_of_nat (n + 32) else c.

Fixpoint lower (s : string) : string :=
  match s with
  | EmptyString => EmptyString
  | String c s' => String (lower_ascii c) (lower s')
  end.

(** [str(n)] on an [int]. *)
Definition str_of_int (n : Z) : string := NilZero.string_of_int (Z.to_int n).

Definition mem_string (s : string) (l : list string) : bool :=
  existsb (String.eqb s) l.

(** Lines 113-115: patch coordinates to coordinates of the upscaled image.
    The addition is the exact one; the arrays of the code are float32, whose
    in-place addition rounds a sum that float32 does not hold. *)
Definition shift_box (t : Tile) (b : Box) : Box :=
  mkBox (b_x1 b + inject_Z (t_x0 t)) (b_y1 b + inject_Z (t_y0 t))
        (b_x2 b + inject_Z (t_x0 t)) (b_y2 b + inject_Z (t_y0 t)).

Definition shift_det (t : Tile) (r : RawDet) : RawDet :=
  mkRawDet (shift_box t (r_box r)) (r_score r) (r_cls r).

(** The per-tile loop, lines 91-119: the model is called on every window in
    turn; an exception raised by a call leaves the loop and the function. *)
Fixpoint collect (m : Model) (args : PredictArgs) (ts : list Tile)
  : result (list RawDet) :=
  match ts with
  | [] => Ok []
  | t :: ts' =>
      r <- predict m t args ;;
      rest <- collect m args ts' ;;
      Ok (map (shift_det t) r ++ rest)
  end.

(** ** Global non-max suppression *)

(** [Subseq k l]: [k] is obtained from [l] by dropping some of its rows. *)
Inductive Subseq {A : Type} : list A -> list A -> Prop :=
| Subseq_done : Subseq [] []
| Subseq_keep (a : A) (k l : list A) : Subseq k l -> Subseq (a :: k) (a :: l)
| Subseq_drop (a : A) (k l : list A) : Subseq k l -> Subseq k (a :: l).

(** Modelled from the spec: [torchvision.ops.nms] is called by [detect_cars]
    (line 131) but is not part of the sources.  Section 4.4 describes it as
    a global greedy suppression on the Intersection-over-Union of two boxes;
    the definitions of this part follow that description. *)
Definition box_area (b : Box) : Q := (b_x2 b - b_x1 b) * (b_y2 b - b_y1 b).

(** Modelled from the spec: Intersection-over-Union of two boxes. *)
Definition iou_of (a b : Box) : Q :=
  let iw := Py.max 0 (Py.min (b_x2 a) (b_x2 b) - Py.max (b_x1 a) (b_x1 b)) in
  let ih := Py.max 0 (Py.min (b_y2 a) (b_y2 b) - Py.max (b_y1 a) (b_y1 b)) in
  let inter := (iw * ih)%Q in
  (inter / (box_area a + box_area b - inter))%Q.

Section NMS.

(** The rows carry whatever the caller gathers by index afterwards (the class
    of the box, in [detect_cars]). *)
Context {A : Type}.
Variable box_of : A -> Box.
Variable score_of : A -> Q.
Variable iou_threshold : Q.

(** Modelled from the spec: a kept box discards a box whose IoU with it
    exceeds the threshold. *)
Definition suppresses (kept other : A) : bool :=
  Py.ltb iou_threshold (iou_of (box_of kept) (box_of other)).

(** Modelled from the spec: sort by confidence descending (a stable
    insertion sort). *)
Fixpoint insert_desc (d : A) (l : list A) : list A :=
  match l with
  | [] => [d]
  | e :: l' =>
      if Py.ltb (score_of d) (score_of e) then e :: insert_desc d l'
      else d :: l
  end.

Definition sort_desc (l : list A) : list A := fold_right insert_desc [] l.

(** Modelled from the spec: repeatedly keep the highest-remaining box and
    discard every unkept box whose IoU with it exceeds the threshold. *)
Equations? greedy (l : list A) : list A by wf (List.length l) lt :=
  greedy [] := [];
  greedy (d :: rest) :=
    d :: greedy (filter (fun e => negb (suppresses d e)) rest).
Proof.
  simpl. apply Nat.lt_succ_r. apply filter_length_le.
Qed.

(** Modelled from the spec: [torchvision.ops.nms]: sort by confidence
    descending, then suppress greedily.  The kept rows are returned in order
    of decreasing score. *)
Definition nms (l : list A) : list A := greedy (sort_desc l).

(** Rows in order of non-increasing score. *)
Definition Descending : list A -> Prop :=
  ForallOrdPairs (fun a b => (score_of b <= score_of a)%Q).

(** No row is suppressed by a row before it. *)
Definition Unsuppressed : list A -> Prop :=
  ForallOrdPairs (fun a b => suppresses a b = false).

End NMS.

(** ** parkpulse/detect.py: post-processing and [detect_cars] *)

(** The body of the loop over [keep], lines 136-178: [None] is a [continue],
    [Some d] is [out.append(d)]. *)
Definition keep_row (m : Model) (scale : Q) (r : RawDet) : option Detection :=
  let cls_id := Py.int (r_cls r) in
  let cls_name :=
    lower (match names m cls_id with
           | Some s => s
           | None => str_of_int cls_id
           end) in
  if negb (mem_string cls_name VEHICLE_CLASS_NAMES) then None
  else
    let '(x1, y1, x2, y2) :=
      (b_x1 (r_box r), b_y1 (r_box r), b_x2 (r_box r), b_y2 (r_box r)) in
    let '(x1, y1, x2, y2) :=
      if negb (Qeq_bool scale 1)
      then ((x1 / scale)%Q, (y1 / scale)%Q, (x2 / scale)%Q, (y2 / scale)%Q)
      else (x1, y1, x2, y2) in
    let w := (x2 - x1)%Q in
    let h := (y2 - y1)%Q in
    let area := (w * h)%Q in
    let aspect := (w / Py.max 1 h)%Q in
    if Py.ltb w 6 || Py.ltb h 6 then None
    else if Py.ltb 160 w || Py.ltb 160 h then None
    else if Py.ltb (160 * 160) area then None
    else if Py.ltb aspect (25 # 100) || Py.ltb 4 aspect then None
    else Some (mkDetection (Py.int x1) (Py.int y1) (Py.int x2) (Py.int y2)
                           (r_score r) cls_id cls_name).

Definition post_loop (m : Model) (scale : Q) (keep : list RawDet) : list Detection :=
  fold_left
    (fun out r => match keep_row m scale r with
                  | Some d => out ++ [d]
                  | None => out
                  end)
    keep [].

Definition nms_threshold : Q := 35 # 100.

(** Lines 74-81: the factor of the optional upscaling. *)
Definition upscale_factor (H W : Z) (upscale_small : bool) : Q :=
  if upscale_small && (Z.min H W <? 2048) then 2%Q else 1%Q.

(** Shape of the image after [cv2.resize(..., fx=scale, fy=scale)]. *)
Definition resized (n : Z) (scale : Q) : Z := Py.round (inject_Z n * scale).

(** [detect_cars] on an image of shape [(H, W, 3)], from line 84 on: the
    image has been resized and the model [m] obtained.  Obtaining the model
    (line 83) is [_get_model] below, and [detect_cars_global] runs both. *)
Definition detect_cars (H W : Z) (m : Model)
    (conf : Q) (imgsz tile overlap : Z) (iou : Q)
    (upscale_small : bool) (max_det : Z) : result (list Detection) :=
  let scale := upscale_factor H W upscale_small in
  let H_up := resized H scale in
  let W_up := resized W scale in
  all <- collect m (mkPredictArgs conf iou imgsz max_det)
                 (tile_windows H_up W_up tile overlap) ;;
  match all with
  | [] => Ok []
  | _ =>
      let keep := nms r_box r_score nms_threshold all in
      Ok (post_loop m scale keep)
  end.

(** app.py, lines 209-222: the detections of one area. *)
Definition area_detections (H W : Z) (m : Model)
    (det_conf : Q) (imgsz tile overlap : Z) : list Detection :=
  match detect_cars H W m det_conf imgsz tile overlap (1 # 2) true 5000 with
  | Ok detections => detections
  | Raise _ => []
  end.

(** ** Stages of the post-processing *)

(** Class name looked up for a row, lines 137-138. *)
Definition class_name_of (m : Model) (r : RawDet) : string :=
  lower (match names m (Py.int (r_cls r)) with
         | Some s => s
         | None => str_of_int (Py.int (r_cls r))
         end).

(** The class filter, lines 140-142. *)
Definition vehicle_row (m : Model) (r : RawDet) : bool :=
  mem_string (class_name_of m r) VEHICLE_CLASS_NAMES.

(** The divide-back, lines 146-151. *)
Definition scale_back (scale : Q) (b : Box) : Box :=
  if negb (Qeq_bool scale 1)
  then mkBox (b_x1 b / scale) (b_y1 b / scale) (b_x2 b / scale) (b_y2 b / scale)
  else b.

(** The size and aspect filters, lines 153-166, on the box they are given. *)
Definition plausible (b : Box) : bool :=
  let w := (b_x2 b - b_x1 b)%Q in
  let h := (b_y2 b - b_y1 b)%Q in
  let area := (w * h)%Q in
  let aspect := (w / Py.max 1 h)%Q in
  negb (Py.ltb w 6 || Py.ltb h 6)
  && negb (Py.ltb 160 w || Py.ltb 160 h)
  && negb (Py.ltb (160 * 160) area)
  && negb (Py.ltb aspect (25 # 100) || Py.ltb 4 aspect).

(** The dictionary appended to [out], lines 168-178. *)
Definition detection_of (m : Model) (b : Box) (r : RawDet) : Detection :=
  mkDetection (Py.int (b_x1 b)) (Py.int (b_y1 b)) (Py.int (b_x2 b)) (Py.int (b_y2 b))
              (r_score r) (Py.int (r_cls r)) (class_name_of m r).

(** The loop over [keep] read as a pipeline: class filter, divide-back, then
    the size and aspect filters on the divided box. *)
Definition post_divide_then_filter (m : Model) (scale : Q) (keep : list RawDet)
  : list Detection :=
  map (fun r => detection_of m (scale_back scale (r_box r)) r)
      (filter (fun r => plausible (scale_back scale (r_box r)))
              (filter (vehicle_row m) keep)).

(** The order of the steps as section 4.3 of the specification words it: the
    size and aspect filters read the upscaled box, the divide-back is last. *)
Definition post_filter_then_divide (m : Model) (scale : Q) (keep : list RawDet)
  : list Detection :=
  map (fun r => detection_of m (scale_back scale (r_box r)) r)
      (filter (fun r => plausible (r_box r))
              (filter (vehicle_row m) keep)).

(** Tile-level recovery as section 7 of the specification words it: a failed
    model call counts as a call that found nothing. *)
Definition zero_on_failure (m : Model) : Model :=
  mkModel (fun t args => match predict m t args with
                         | Ok r => Ok r
                         | Raise _ => Ok []
                         end)
          (names m).

(** ** Sample models *)

Definition car_names (c : Z) : option string :=
  if c =? 0 then Some "car"%string else None.

(** A model that finds nothing. *)
Definition silent_model : Model := mkModel (fun _ _ => Ok []) car_names.


(** A model that fails on the window at the origin and finds one car in the
    window at [(768, 0)]. *)
Definition one_bad_tile_model : Model :=
  mkModel
    (fun t _ =>
       if (t_x0 t =? 0) && (t_y0 t =? 0)
       then Raise (RuntimeError "inference failed")
       else if (t_x0 t =? 768) && (t_y0 t =? 0)
       then Ok [mkRawDet (mkBox 10 10 50 40) (9 # 10) 0]
       else Ok [])
    car_names.

(** A model that finds one car of 10 x 10 pixels (of the upscaled image) in
    the window at the origin. *)
Definition small_box_model : Model :=
  mkModel
    (fun t _ =>
       if (t_x0 t =? 0) && (t_y0 t =? 0)
       then Ok [mkRawDet (mkBox 10 10 20 20) (9 # 10) 0]
       else Ok [])
    car_names.

(** ** parkpulse/estimate.py: [combine_estimates] *)

(** Over the exact rationals.  The half of the sum is exact in binary64 for
    sums of absolute value up to 2^53; above, the float division rounds. *)
Definition combine_estimates (a b : Z) : Z :=
  Z.max 0 (Py.round (inject_Z (a + b) / 2)).

(** ** app.py: the confidence label, lines 226-233 *)

(** [sum(d["conf"] for d in detections) / len(detections)], or [0.0]. *)
Definition avg_conf (detections : list Detection) : Q :=
  match detections with
  | [] => 0%Q
  | _ => (fold_left Qplus (map conf detections) 0
          / inject_Z (Z.of_nat (List.length detections)))%Q
  end.

Definition conf_label (avg_conf : Q) : string :=
  if Py.leb (7 # 10) avg_conf then "high"
  else if Py.leb (4 # 10) avg_conf then "medium"
  else "low".

(** ** app.py: the loop over the parking areas, lines 178-270 and 300 *)

(** The settings read by the loop. *)
Record Settings : Type := mkSettings {
  cfg_zoom : Z;
  cfg_occupancy : Q;
  cfg_det_conf : Q;
  cfg_imgsz : Z;
  cfg_tile : Z;
  cfg_overlap : Z;
  cfg_auto_zoom_retry : bool;
  cfg_min_img_height : Z
}.

Record Totals : Type := mkTotals {
  total_cars : Z;
  total_capacity : Z;
  total_free : Z
}.

Definition overall_occ (tot : Totals) : Q :=
  if total_capacity tot >? 0
  then (inject_Z (total_cars tot) / inject_Z (total_capacity tot))%Q
  else 0%Q.

Section App.

(** The imagery source and the detector are external: the bounds of a
    polygon and a zoom level give an image or an exception; the model is
    applied to the windows of that image. *)
Variable Bounds : Type.
Variable Image : Type.
Variable image_shape : Image -> Z * Z.
Variable _cached_aerial_mosaic : Bounds -> Z -> result Image.
Variable predict_on : Image -> Tile -> PredictArgs -> result (list RawDet).
Variable model_names : Z -> option string.

(** Imagery fetch with the automatic retry at the next zoom level,
    lines 194-201: the image and the zoom used. *)
Definition fetch_area_image (cfg : Settings) (bounds : Bounds) : result (Image * Z) :=
  let used_zoom := cfg_zoom cfg in
  img <- _cached_aerial_mosaic bounds used_zoom ;;
  if cfg_auto_zoom_retry cfg
     && (fst (image_shape img) <? cfg_min_img_height cfg)
     && (used_zoom <? 20)
  then
    let used_zoom := used_zoom + 1 in
    img <- _cached_aerial_mosaic bounds used_zoom ;;
    Ok (img, used_zoom)
  else Ok (img, used_zoom).

(** The detections of an image, lines 209-220. *)
Definition image_detections (cfg : Settings) (img : Image) : list Detection :=
  area_detections (fst (image_shape img)) (snd (image_shape img))
                  (mkModel (predict_on img) model_names)
                  (cfg_det_conf cfg) (cfg_imgsz cfg) (cfg_tile cfg) (cfg_overlap cfg).

(** One iteration of the loop: an area whose imagery fails is skipped
    ([continue]); otherwise its figures are added to the totals.  A
    [ValueError] of an estimator is not caught.  The Streamlit display calls
    and [draw_detections] are left out. *)
Definition area_step (cfg : Settings) (tot : Totals) (row : Q * Bounds)
  : result Totals :=
  match fetch_area_image cfg (snd row) with
  | Raise _ => Ok tot
  | Ok (img, _) =>
      let detections := image_detections cfg img in
      est <- estimate_area (Z.of_nat (List.length detections)) (fst row)
                           (cfg_occupancy cfg) min_coverage_const blend_strength_const ;;
      Ok (mkTotals (total_cars tot + occupied est)
                   (total_capacity tot + capacity est)
                   (total_free tot + free_spots est))
  end.

Fixpoint run_areas (cfg : Settings) (tot : Totals) (rows : list (Q * Bounds))
  : result Totals :=
  match rows with
  | [] => Ok tot
  | row :: rows' =>
      tot' <- area_step cfg tot row ;;
      run_areas cfg tot' rows'
  end.

End App.

(** ** parkpulse/detect.py: the global model, lines 20-45 *)

(** The module state: the global [_model], and the paths handed to the
    constructor [YOLO] so far. *)
Record DetectState : Type := mkDetectState {
  _model : option Model;
  yolo_calls : list string
}.

Section GlobalModel.

(** [YOLO(path)] loads the weights or raises.  [Path(s).name],
    [Path(s).parts] and [str(_PROJECT_ROOT / "models" / "best.pt")] are those
    of the platform's [pathlib]. *)
Variable YOLO : string -> result Model.
Variable path_name : string -> string.
Variable path_parts : string -> list string.
Variable project_best_pt : string.

Definition _resolve_model_path (model_name : string) : string :=
  if String.eqb (path_name model_name) "best.pt"
     && (String.prefix "models/" model_name
         || mem_string "models" (path_parts model_name))
  then project_best_pt
  else model_name.

(** [_model = YOLO(path)]: the global is assigned after the constructor
    has returned. *)
Definition construct (path : string) (st : DetectState)
  : result Model * DetectState :=
  match YOLO path with
  | Ok m => (Ok m, mkDetectState (Some m) (yolo_calls st ++ [path]))
  | Raise e => (Raise e, mkDetectState (_model st) (yolo_calls st ++ [path]))
  end.

Definition load_model (model_name : string) (st : DetectState)
  : result Model * DetectState :=
  construct (_resolve_model_path model_name) st.

Definition _get_model (st : DetectState) : result Model * DetectState :=
  match _model st with
  | None => construct (_resolve_model_path "models/best.pt") st
  | Some m => (Ok m, st)
  end.

(** [detect_cars] as the module exports it: the model is the global one. *)
Definition detect_cars_global (H W : Z)
    (conf : Q) (imgsz tile overlap : Z) (iou : Q)
    (upscale_small : bool) (max_det : Z) (st : DetectState)
  : result (list Detection) * DetectState :=
  match _get_model st with
  | (Ok m, st') =>
      (detect_cars H W m conf imgsz tile overlap iou upscale_small max_det, st')
  | (Raise e, st') => (Raise e, st')
  end.

End GlobalModel.

(** ** parkpulse/imagery.py: [_get_tile_provider] *)

(** [s.split(sep)] for a separator of one character. *)
Fixpoint split_on (sep : ascii) (s : string) : list string :=
  match s with
  | EmptyString => [EmptyString]
  | String c s' =>
      if Ascii.eqb c sep then EmptyString :: split_on sep s'
      else match split_on sep s' with
           | [] => [String c EmptyString]
           | w :: ws => String c w :: ws
           end
  end.

Section TileProvider.

(** [getattr(obj, part)] on the objects of [xyzservices.providers]. *)
Variable Obj : Type.
Variable getattr : Obj -> string -> result Obj.
Variable xyz_providers : Obj.

Fixpoint getattr_chain (obj : Obj) (parts : list string) : result Obj :=
  match parts with
  | [] => Ok obj
  | part :: parts' =>
      obj' <- getattr obj part ;;
      getattr_chain obj' parts'
  end.

Definition _get_tile_provider (source : string) : result Obj :=
  getattr_chain xyz_providers (split_on "." source).

End TileProvider.

(** ** Further samples and predicates *)

(** The relations between the three totals that every iteration keeps. *)
Definition totals_consistent (tot : Totals) : Prop :=
  0 <= total_cars tot
  /\ 0 <= total_free tot <= total_capacity tot
  /\ total_capacity tot <= total_free tot + total_cars tot.

(** A sample run: square images of 600 pixels (1200 from zoom 20 on), a
    detector that fails on the first window. *)
Definition sample_settings : Settings :=
  mkSettings 19 (6 # 10) (5 # 100) 1536 1024 256 false 2048.

(** Imagery that is missing below zoom 17. *)
Definition sample_mosaic (_ : unit) (zoom : Z) : result (Z * Z) :=
  if zoom <? 17 then Raise (RuntimeError "no imagery")
  else if zoom <? 20 then Ok (600, 600) else Ok (1200, 1200).

(** The detector of the sample run, the same on every image. *)
Definition sample_predict_on (_ : Z * Z) : Tile -> PredictArgs -> result (list RawDet) :=
  predict one_bad_tile_model.

(** Sample constructors and paths. *)
Definition sample_YOLO (path : string) : result Model :=
  if String.eqb path "/srv/parkpulse/models/best.pt" then Ok silent_model
  else Raise (RuntimeError "weights not found").

(** A [pathlib] that knows the default model path only. *)
Definition sample_path_name (s : string) : string :=
  if String.eqb s "models/best.pt" then "best.pt" else s.

(** The parts of the default model path. *)
Definition sample_path_parts (s : string) : list string :=
  if String.eqb s "models/best.pt" then ["models"; "best.pt"]%string else [s].

(** The module state at import: no model, no constructor call. *)
Definition empty_state : DetectState := mkDetectState None [].

(** [c in s]. *)
Fixpoint has_char (c : ascii) (s : string) : bool :=
  match s with
  | EmptyString => false
  | String c' s' => Ascii.eqb c' c || has_char c s'
  end.

(** Two cars in one window and one in the next. *)
Definition busy_model : Model :=
  mkModel
    (fun t _ =>
       if (t_x0 t =? 0) && (t_y0 t =? 0)
       then Ok [mkRawDet (mkBox 100 100 140 130) (5 # 10) 0;
                mkRawDet (mkBox 300 100 340 130) (8 # 10) 0]
       else if (t_x0 t =? 768) && (t_y0 t =? 0)
       then Ok [mkRawDet (mkBox 10 10 50 40) (9 # 10) 0]
       else Ok [])
    car_names.

(** A model that fails on the second window with one message and on the
    third with another. *)
Definition two_failures_model : Model :=
  mkModel
    (fun t _ =>
       if (t_x0 t =? 768) && (t_y0 t =? 0)
       then Raise (RuntimeError "second window")
       else if (t_x0 t =? 0) && (t_y0 t =? 768)
       then Raise (RuntimeError "third window")
       else Ok [])
    car_names.

(** * Properties *)

(** ** Comparisons *)

Lemma ltb_lt (x y : Q) : Py.ltb x y = true <-> (x < y)%Q.
Proof.
  unfold Py.ltb. rewrite negb_true_iff.
  split; intro H.
  - apply Qnot_le_lt. intro L. apply Qle_bool_iff in L. congruence.
  - destruct (Qle_bool y x) eqn:E; [|reflexivity].
    apply Qle_bool_iff in E. exfalso. exact (Qlt_not_le _ _ H E).
Qed.

Lemma ltb_ge (x y : Q) : Py.ltb x y = false <-> (y <= x)%Q.
Proof.
  unfold Py.ltb. rewrite negb_false_iff. apply Qle_bool_iff.
Qed.

Lemma leb_le (x y : Q) : Py.leb x y = true <-> (x <= y)%Q.
Proof. apply Qle_bool_iff. Qed.

(** ** The two capacity estimators *)

Lemma int_inject_Z (z : Z) : Py.int (inject_Z z) = z.
Proof. unfold Py.int. simpl. apply Z.quot_1_r. Qed.

Lemma int_floordiv (x y : Q) : Py.int (Py.floordiv x y) = Qfloor (x / y).
Proof. unfold Py.floordiv. apply int_inject_Z. Qed.


(** With an occupancy of at most one the quotient is at least the count. *)
Lemma quotient_ge_count (n : Z) (occupancy : Q) :
  0 <= n -> (0 < occupancy)%Q -> (occupancy <= 1)%Q ->
  (inject_Z n <= inject_Z n / occupancy)%Q.
Proof.
  intros Hn Hpos Hle.
  apply Qle_shift_div_l; [exact Hpos|].
  assert (H0 : (0 <= inject_Z n)%Q).
  { change 0%Q with (inject_Z 0). rewrite <- Zle_Qle. exact Hn. }
  apply Qle_trans with (inject_Z n * 1)%Q.
  - rewrite !(Qmult_comm (inject_Z n)).
    apply Qmult_le_compat_r; assumption.
  - rewrite Qmult_1_r. apply Qle_refl.
Qed.

Lemma cars_guard_passes (n_cars : Z) (occupancy : Q) :
  0 <= n_cars -> (0 < occupancy)%Q -> (occupancy <= 1)%Q ->
  estimate_spots_from_cars n_cars occupancy
  = Ok (Z.max n_cars (Py.ceil (inject_Z n_cars / occupancy))).
Proof.
  intros Hn Hpos Hle. unfold estimate_spots_from_cars.
  assert (G1 : Py.leb occupancy 0 = false).
  { destruct (Py.leb occupancy 0) eqn:E; [|reflexivity].
    apply leb_le in E. exfalso. exact (Qlt_not_le _ _ Hpos E). }
  assert (G2 : Py.ltb 1 occupancy = false) by (apply ltb_ge; exact Hle).
  assert (G3 : (n_cars <? 0) = false) by (apply Z.ltb_ge; exact Hn).
  rewrite G1, G2, G3. reflexivity.
Qed.

(** In the exact model the floor at [n_cars] is never active. *)
Lemma ceil_quotient_ge_count (n_cars : Z) (occupancy : Q) :
  0 <= n_cars -> (0 < occupancy)%Q -> (occupancy <= 1)%Q ->
  n_cars <= Py.ceil (inject_Z n_cars / occupancy).
Proof.
  intros Hn Hpos Hle. unfold Py.ceil.
  rewrite <- (Qceiling_Z n_cars) at 1.
  apply Qceiling_resp_le, quotient_ge_count; assumption.
Qed.

(** ** The estimate from the cars in binary64 *)

Lemma iter_pos_invariant {A : Type} (f : A -> A) (P : A -> Prop) :
  (forall x, P x -> P (f x)) ->
  forall p x, P x -> P (iter_pos f p x).
Proof.
  intros Hf. induction p as [p IH|p IH|]; intros x Hx; simpl; auto.
Qed.

Lemma shr_1_nonneg (mrs : shr_record) : 0 <= shr_m mrs -> 0 <= shr_m (shr_1 mrs).
Proof.
  destruct mrs as [m r s]. simpl.
  destruct m as [|p|p]; [simpl; lia| |lia].
  destruct p; simpl; lia.
Qed.

Lemma shr_fexp_nonneg (m e : Z) (l : location) :
  0 <= m -> 0 <= shr_m (fst (shr_fexp B64.prec B64.emax m e l)).
Proof.
  intro Hm. unfold shr_fexp, shr.
  assert (H0 : 0 <= shr_m (shr_record_of_loc m l))
    by (destruct l as [|[]]; exact Hm).
  destruct (_ - e) as [|p|p]; cbn [fst]; try exact H0.
  apply (iter_pos_invariant shr_1 (fun r => 0 <= shr_m r) shr_1_nonneg), H0.
Qed.

(** Rounding a non-negative mantissa gives a zero, a finite number or an
    infinity, never a NaN. *)
Lemma binary_round_aux_not_nan (s : bool) (m e : Z) (l : location) :
  0 <= m -> binary_round_aux B64.prec B64.emax s m e l <> S754_nan.
Proof.
  intro Hm. unfold binary_round_aux.
  pose proof (shr_fexp_nonneg m e l Hm) as H1.
  destruct (shr_fexp B64.prec B64.emax m e l) as [mrs' e'] eqn:E1.
  cbn [fst] in H1.
  assert (H2 : 0 <= round_nearest_even (shr_m mrs') (loc_of_shr_record mrs')).
  { unfold round_nearest_even.
    destruct (loc_of_shr_record mrs') as [|[]]; try lia.
    destruct (Z.even (shr_m mrs')); lia. }
  pose proof (shr_fexp_nonneg _ e' loc_Exact H2) as H3.
  destruct (shr_fexp B64.prec B64.emax _ e' loc_Exact) as [mrs'' e''].
  cbn [fst] in H3.
  destruct (shr_m mrs'') as [|p|p]; [discriminate| |lia].
  destruct (e'' <=? B64.emax - B64.prec); discriminate.
Qed.

Lemma of_Z_not_nan (z : Z) : B64.of_Z z <> S754_nan.
Proof.
  unfold B64.of_Z, binary_normalize.
  destruct z as [|p|p]; [discriminate| |];
    unfold binary_round;
    destruct (shl_align _ _ _) as [mz ez];
    apply binary_round_aux_not_nan; lia.
Qed.

Lemma positive_unit_finite (occupancy : B64.float) :
  B64.ltb B64.zero occupancy = true -> B64.leb occupancy B64.one = true ->
  exists m e, occupancy = S754_finite false m e.
Proof.
  unfold B64.ltb, B64.leb, SFltb, SFleb, B64.zero.
  destruct occupancy as [s|s| |s m e]; cbn [SFcompare]; try discriminate.
  - destruct s; discriminate.
  - destruct s; [discriminate|]. intros _ _. eauto.
Qed.

(** The quotient of a converted integer by a positive finite float is never
    a NaN. *)
Lemma quotient_not_nan (x : B64.float) (m : positive) (e : Z) :
  x <> S754_nan ->
  SFdiv B64.prec B64.emax x (S754_finite false m e) <> S754_nan.
Proof.
  intros Hx. destruct x as [s|s| |s mx ex]; cbn [SFdiv]; try discriminate.
  - congruence.
  - unfold SFdiv_core_binary. cbv zeta.
    set (m' := match _ - _ - _ with Z0 => Zpos mx | Zpos _ => _ | Zneg _ => 0 end).
    assert (Hm' : 0 <= m').
    { unfold m'. destruct (_ - _ - _); try lia. apply Z.shiftl_nonneg. lia. }
    pose proof (Z_div_mod m' (Zpos m) ltac:(lia)) as Hdm.
    destruct (Z.div_eucl m' (Zpos m)) as [q r].
    apply binary_round_aux_not_nan. nia.
Qed.

Lemma SFcompare_antisym (x y : B64.float) :
  SFcompare y x = option_map CompOpp (SFcompare x y).
Proof.
  destruct x as [sx|sx| |sx mx ex]; destruct y as [sy|sy| |sy my ey];
    cbn [SFcompare option_map]; try reflexivity;
    try (destruct sx; reflexivity); try (destruct sy; reflexivity);
    try (destruct sx, sy; reflexivity).
  destruct sx, sy; cbn [CompOpp]; try reflexivity.
  - rewrite (Z.compare_antisym ex ey).
    destruct (ex ?= ey); cbn [CompOpp]; try reflexivity.
    f_equal. f_equal.
    change Eq with (CompOpp Eq) at 1. symmetry. apply Pos.compare_cont_antisym.
  - rewrite (Z.compare_antisym ex ey).
    destruct (ex ?= ey); cbn [CompOpp]; try reflexivity.
    f_equal.
    change Eq with (CompOpp Eq) at 1. symmetry. apply Pos.compare_cont_antisym.
Qed.

Lemma leb_true_ltb_false (x y : B64.float) :
  B64.leb x y = true -> B64.ltb y x = false.
Proof.
  unfold B64.leb, B64.ltb, SFleb, SFltb. rewrite (SFcompare_antisym x y).
  destruct (SFcompare x y) as [[]|]; cbn [option_map CompOpp];
    intro H; congruence.
Qed.

Lemma ltb_true_leb_false (x y : B64.float) :
  B64.ltb x y = true -> B64.leb y x = false.
Proof.
  unfold B64.leb, B64.ltb, SFleb, SFltb. rewrite (SFcompare_antisym x y).
  destruct (SFcompare x y) as [[]|]; cbn [option_map CompOpp];
    intro H; congruence.
Qed.

(** What the function does once both guards are passed. *)
Lemma cars_after_guards (n_cars : Z) (occupancy : B64.float) :
  0 <= n_cars ->
  B64.leb occupancy B64.zero = false -> B64.ltb B64.one occupancy = false ->
  B64.estimate_spots_from_cars n_cars occupancy
  = (x <- B64.of_int n_cars ;;
     q <- B64.truediv x occupancy ;;
     c <- B64.ceil q ;;
     Ok (Z.max n_cars c)).
Proof.
  intros Hn G1 G2. unfold B64.estimate_spots_from_cars.
  rewrite G1, G2, (proj2 (Z.ltb_ge n_cars 0) Hn). reflexivity.
Qed.

Lemma of_int_cases (n : Z) :
  (exists x, B64.of_int n = Ok x /\ x = B64.of_Z n /\ B64.is_finite x = true)
  \/ (exists s msg, B64.of_Z n = S754_infinity s
                    /\ B64.of_int n = Raise (OverflowError msg)).
Proof.
  unfold B64.of_int. pose proof (of_Z_not_nan n) as Hnan.
  destruct (B64.of_Z n) as [s|s| |s m e]; [left|right|congruence|left]; eauto.
Qed.

(** C4, as the specification states it, fails on the floats of the code.
    With one car and the occupancy 5e-324, which lies in (0, 1], the
    quotient is infinite and the function raises [OverflowError] instead of
    returning.  With 21 cars and the occupancy 0.7 it returns 31, where the
    ceiling of 21 / 0.7 is 30.  With 3 cars and the occupancy 0.6 it returns
    5, where the ceiling of the exact quotient by that double is 6 (5 spots
    at that occupancy hold fewer than 3 cars). *)
Lemma cars_estimate_is_not_the_exact_ceiling :
  B64.ltb B64.zero B64.min_subnormal = true
  /\ B64.leb B64.min_subnormal B64.one = true
  /\ B64.estimate_spots_from_cars 1 B64.min_subnormal
     = Raise (OverflowError "cannot convert float infinity to integer")
  /\ B64.literal 7 10 = S754_finite false 6305039478318694 (-53)
  /\ B64.estimate_spots_from_cars 21 (B64.literal 7 10) = Ok 31
  /\ Z.max 21 (Qceiling (inject_Z 21 / (7 # 10))) = 30
  /\ B64.literal 6 10 = S754_finite false 5404319552844595 (-53)
  /\ B64.ltb B64.zero (B64.literal 6 10) = true
  /\ B64.leb (B64.literal 6 10) B64.one = true
  /\ B64.estimate_spots_from_cars 3 (B64.literal 6 10) = Ok 5
  /\ Z.max 3 (Qceiling (inject_Z 3 / B64.value (B64.literal 6 10))) = 6
  /\ (inject_Z 5 * B64.value (B64.literal 6 10) < inject_Z 3)%Q.
Proof. repeat split; vm_compute; reflexivity. Qed.

(** C4, amended: for [n_cars >= 0] and a binary64 occupancy in (0, 1] the
    function either returns the ceiling of the binary64 quotient of [n_cars]
    by the occupancy, floored at [n_cars], which is at least [n_cars], or it
    raises [OverflowError]; it raises exactly when [n_cars] is too large for
    a float or the quotient is infinite. *)
Theorem cars_estimate_binary64 (n_cars : Z) (occupancy : B64.float) :
  0 <= n_cars ->
  B64.ltb B64.zero occupancy = true -> B64.leb occupancy B64.one = true ->
  (exists x spots,
      B64.of_int n_cars = Ok x
      /\ B64.is_finite (SFdiv B64.prec B64.emax x occupancy) = true
      /\ B64.estimate_spots_from_cars n_cars occupancy = Ok spots
      /\ spots
         = Z.max n_cars
                 (Qceiling (B64.value (SFdiv B64.prec B64.emax x occupancy)))
      /\ n_cars <= spots)
  \/ (exists msg,
      B64.estimate_spots_from_cars n_cars occupancy = Raise (OverflowError msg)
      /\ ((exists s, B64.of_Z n_cars = S754_infinity s)
          \/ (exists x s,
                B64.of_int n_cars = Ok x
                /\ SFdiv B64.prec B64.emax x occupancy = S754_infinity s))).
Proof.
  intros Hn Hpos Hle.
  rewrite cars_after_guards;
    [|exact Hn|apply ltb_true_leb_false, Hpos|apply leb_true_ltb_false, Hle].
  destruct (positive_unit_finite occupancy Hpos Hle) as [m [e ->]].
  destruct (of_int_cases n_cars) as [[x [Ex [Hx Fx]]]|[s [msg [Hinf Ex]]]].
  - rewrite Ex. cbv beta iota delta [bind B64.truediv].
    assert (Hq : SFdiv B64.prec B64.emax x (S754_finite false m e) <> S754_nan).
    { apply quotient_not_nan.
      intro E. rewrite E in Fx. discriminate. }
    destruct (SFdiv B64.prec B64.emax x (S754_finite false m e)) as [s|s| |s mq eq]
      eqn:Q; [left|right|congruence|left].
    + exists x.
      exists (Z.max n_cars
                (Qceiling (B64.value (SFdiv B64.prec B64.emax x (S754_finite false m e))))).
      rewrite Q. repeat split; try reflexivity. apply Z.le_max_l.
    + eexists. split; [reflexivity|]. right. exists x, s. auto.
    + exists x.
      exists (Z.max n_cars
                (Qceiling (B64.value (SFdiv B64.prec B64.emax x (S754_finite false m e))))).
      rewrite Q. repeat split; try reflexivity. apply Z.le_max_l.
  - right. rewrite Ex. exists msg. split; [reflexivity|]. left. eauto.
Qed.

Lemma cars_estimate_binary64_witness :
  (exists x spots,
      B64.of_int 21 = Ok x
      /\ B64.is_finite (SFdiv B64.prec B64.emax x (B64.literal 7 10)) = true
      /\ B64.estimate_spots_from_cars 21 (B64.literal 7 10) = Ok spots
      /\ spots
         = Z.max 21
                 (Qceiling (B64.value (SFdiv B64.prec B64.emax x (B64.literal 7 10))))
      /\ 21 <= spots)
  \/ (exists msg,
      B64.estimate_spots_from_cars 21 (B64.literal 7 10) = Raise (OverflowError msg)
      /\ ((exists s, B64.of_Z 21 = S754_infinity s)
          \/ (exists x s,
                B64.of_int 21 = Ok x
                /\ SFdiv B64.prec B64.emax x (B64.literal 7 10) = S754_infinity s))).
Proof.
  apply (cars_estimate_binary64 21 (B64.literal 7 10)).
  - lia.
  - vm_compute. reflexivity.
  - vm_compute. reflexivity.
Defined.

(** Values of the function at the occupancies of the slider. *)
Example cars_estimate_binary64_values :
  B64.estimate_spots_from_cars 40 (B64.literal 6 10) = Ok 67
  /\ B64.estimate_spots_from_cars 21 (B64.literal 7 10) = Ok 31
  /\ B64.estimate_spots_from_cars 0 (B64.literal 3 10) = Ok 0
  /\ B64.estimate_spots_from_cars 7 B64.one = Ok 7.
Proof. repeat split; vm_compute; reflexivity. Qed.

Lemma area_guard_passes (area_m2 m2_per_spot : Q) :
  (0 <= area_m2)%Q -> (0 < m2_per_spot)%Q ->
  estimate_spots_from_area area_m2 m2_per_spot
  = Ok (Z.max 0 (Qfloor (area_m2 / m2_per_spot))).
Proof.
  intros Ha Hm. unfold estimate_spots_from_area.
  assert (G1 : Py.leb m2_per_spot 0 = false).
  { destruct (Py.leb m2_per_spot 0) eqn:E; [|reflexivity].
    apply leb_le in E. exfalso. exact (Qlt_not_le _ _ Hm E). }
  assert (G2 : Py.ltb area_m2 0 = false) by (apply ltb_ge; exact Ha).
  rewrite G1, G2, int_floordiv. reflexivity.
Qed.



(** ** Capacity uncertainty *)

(** C10: for non-negative estimates the capacity uncertainty is at least 1,
    also when both estimates are zero. *)
Theorem capacity_uncertainty_ge_1 (spots_from_area spots_from_cars : Z) :
  0 <= spots_from_area -> 0 <= spots_from_cars ->
  1 <= capacity_uncertainty spots_from_area spots_from_cars.
Proof.
  intros _ _. unfold capacity_uncertainty. apply Z.le_max_l.
Qed.

Lemma capacity_uncertainty_ge_1_witness :
  1 <= capacity_uncertainty 0 0 /\ capacity_uncertainty 0 0 = 1.
Proof.
  split.
  - apply (capacity_uncertainty_ge_1 0 0); lia.
  - reflexivity.
Defined.

(** The floor does not depend on the sign of the estimates. *)
Lemma capacity_uncertainty_floor (spots_from_area spots_from_cars : Z) :
  1 <= capacity_uncertainty spots_from_area spots_from_cars.
Proof. unfold capacity_uncertainty. apply Z.le_max_l. Qed.

(** ** The reliability blender *)


Lemma coverage_with_area (n_cars spots_from_area : Z) :
  0 < spots_from_area ->
  coverage n_cars spots_from_area
  = (inject_Z n_cars / inject_Z spots_from_area)%Q.
Proof.
  intro H. unfold coverage.
  destruct (spots_from_area >? 0) eqn:E; [reflexivity|].
  rewrite Z.gtb_ltb in E. apply Z.ltb_ge in E. lia.
Qed.

(** C1: with no detected car, or with a coverage below [min_coverage], the
    blender is in the Unreliable state: [combined] is [spots_from_area] and
    [weight_cars] is 0, whatever the other inputs are. *)
Theorem blend_unreliable
    (n_cars spots_from_area spots_from_cars : Z)
    (occupancy min_coverage blend_strength : Q) :
  n_cars = 0 \/ (coverage n_cars spots_from_area < min_coverage)%Q ->
  let b := blend n_cars spots_from_area spots_from_cars
                 occupancy min_coverage blend_strength in
  combined b = spots_from_area
  /\ weight_cars b = 0%Q
  /\ reliability_note b = Unreliable.
Proof.
  intros Hgate. cbv zeta. unfold blend.
  assert (G : (n_cars =? 0)
              || Py.ltb (coverage n_cars spots_from_area) min_coverage = true).
  { apply orb_true_iff. destruct Hgate as [Hn | Hc].
    - left. apply Z.eqb_eq, Hn.
    - right. apply ltb_lt, Hc. }
  rewrite G. simpl. auto.
Qed.

Lemma blend_unreliable_witness :
  (let b := blend 0 60 0 (6 # 10) min_coverage_const blend_strength_const in
   combined b = 60 /\ weight_cars b = 0%Q /\ reliability_note b = Unreliable)
  /\
  (let b := blend 2 60 4 (6 # 10) min_coverage_const blend_strength_const in
   combined b = 60 /\ weight_cars b = 0%Q /\ reliability_note b = Unreliable).
Proof.
  split.
  - apply (blend_unreliable 0 60 0). left. reflexivity.
  - apply (blend_unreliable 2 60 4). right. reflexivity.
Defined.

(** The gate is exact: outside of it the blender is in the Blended state. *)
Lemma blend_blended
    (n_cars spots_from_area spots_from_cars : Z)
    (occupancy min_coverage blend_strength : Q) :
  n_cars <> 0 -> (min_coverage <= coverage n_cars spots_from_area)%Q ->
  let w := (blend_strength
            * ramp_of (coverage n_cars spots_from_area) occupancy min_coverage)%Q in
  blend n_cars spots_from_area spots_from_cars occupancy min_coverage blend_strength
  = mkBlend
      (Py.round ((1 - w) * inject_Z spots_from_area + w * inject_Z spots_from_cars))
      w (Blended w).
Proof.
  intros Hn Hc. cbv zeta. unfold blend.
  assert (G1 : (n_cars =? 0) = false) by (apply Z.eqb_neq, Hn).
  assert (G2 : Py.ltb (coverage n_cars spots_from_area) min_coverage = false)
    by (apply ltb_ge, Hc).
  rewrite G1, G2. reflexivity.
Qed.

(** With no detection the area's capacity is the area-based estimate. *)
Lemma estimate_area_no_cars (area_m2 occupancy min_coverage blend_strength : Q) :
  (0 <= area_m2)%Q -> (0 < occupancy)%Q -> (occupancy <= 1)%Q ->
  exists e,
    estimate_area 0 area_m2 occupancy min_coverage blend_strength = Ok e
    /\ estimate_spots_from_area area_m2 default_m2_per_spot = Ok (capacity e)
    /\ reliability_note (blend_of e) = Unreliable.
Proof.
  intros Ha Hpos Hle. unfold estimate_area.
  rewrite (cars_guard_passes 0 occupancy) by (assumption || lia).
  rewrite (area_guard_passes area_m2 default_m2_per_spot) by (assumption || reflexivity).
  simpl bind. eexists. split; [reflexivity|]. simpl.
  split; [|reflexivity].
  f_equal. rewrite (Z.max_r 0 (Z.max 0 _)); [reflexivity|apply Z.le_max_l].
Qed.

(** C5: the scenario [n_cars = 40], [spots_from_area = 60], [occupancy = 0.6],
    [min_coverage = 0.05], [blend_strength = 0.6]: [spots_from_cars] is 67, the
    coverage 40/60 saturates the ramp at 1, [weight_cars] is 0.6 and the
    combined estimate is [round(0.4 * 60 + 0.6 * 67) = 64]. *)
Theorem scenario_40_cars_60_spots :
  let occupancy := 6 # 10 in
  let b := blend 40 60 67 occupancy min_coverage_const blend_strength_const in
  estimate_spots_from_cars 40 occupancy = Ok 67
  /\ (coverage 40 60 == 40 # 60)%Q
  /\ (1 <= (coverage 40 60 - min_coverage_const)
           / (occupancy - min_coverage_const))%Q
  /\ (ramp_of (coverage 40 60) occupancy min_coverage_const == 1)%Q
  /\ (weight_cars b == 6 # 10)%Q
  /\ reliability_note b = Blended (weight_cars b)
  /\ combined b = Py.round ((4 # 10) * 60 + (6 # 10) * 67)
  /\ combined b = 64.
Proof.
  cbv zeta. repeat split; try reflexivity.
  vm_compute. discriminate.
Qed.

(** ** Tiling *)

Lemma range_len_nonneg (start stop step : Z) :
  0 < step -> 0 <= range_len start stop step.
Proof.
  intro Hs. unfold range_len.
  destruct (start <? stop) eqn:E; [|lia].
  apply Z.ltb_lt in E.
  assert (0 <= (stop - start - 1) / step) by (apply Z.div_pos; lia).
  lia.
Qed.

Lemma lt_range_len (start stop step i : Z) :
  0 < step -> 0 <= i ->
  i < range_len start stop step <-> start + i * step < stop.
Proof.
  intros Hs Hi. unfold range_len.
  destruct (start <? stop) eqn:E.
  - apply Z.ltb_lt in E.
    split; intro H.
    + assert (i <= (stop - start - 1) / step) by lia.
      assert (step * i <= stop - start - 1).
      { etransitivity; [apply Z.mul_le_mono_nonneg_l; [lia|eassumption]|].
        apply Z.mul_div_le; lia. }
      lia.
    + assert (i <= (stop - start - 1) / step); [|lia].
      apply Z.div_le_lower_bound; lia.
  - apply Z.ltb_ge in E. split; intro H; [lia|nia].
Qed.

(** The values produced by [range(start, stop, step)]. *)
Lemma in_py_range (start stop step v : Z) :
  0 < step ->
  In v (py_range start stop step)
  <-> exists i, 0 <= i /\ v = start + i * step /\ v < stop.
Proof.
  intro Hs. unfold py_range. rewrite in_map_iff. split.
  - intros [k [Hv Hk]]. apply in_seq in Hk. exists (Z.of_nat k).
    split; [lia|]. split; [lia|]. subst v.
    apply lt_range_len; lia.
  - intros [i [Hi [Hv Hlt]]]. exists (Z.to_nat i).
    rewrite Z2Nat.id by lia. split; [lia|].
    apply in_seq. split; [lia|]. simpl.
    subst v. apply lt_range_len in Hlt; lia.
Qed.

(** Every coordinate below [stop] lies at most [step - 1] after a value of
    [range(0, stop, step)]. *)
Lemma py_range_reaches (stop step v : Z) :
  0 < step -> 0 <= v < stop ->
  exists v0, In v0 (py_range 0 stop step) /\ v0 <= v < v0 + step.
Proof.
  intros Hs Hv. exists (v / step * step).
  pose proof (Z.div_mod v step ltac:(lia)) as Hdm.
  pose proof (Z.mod_pos_bound v step Hs) as Hmod.
  assert (Hq : 0 <= v / step) by (apply Z.div_pos; lia).
  split; [|lia].
  apply in_py_range; [exact Hs|].
  exists (v / step). split; [exact Hq|]. split; lia.
Qed.

Lemma in_tile_windows (H W tile overlap : Z) (t : Tile) :
  In t (tile_windows H W tile overlap)
  <-> exists y0 x0,
        In y0 (py_range 0 H (tile_step tile overlap))
        /\ In x0 (py_range 0 W (tile_step tile overlap))
        /\ t = mkTile x0 y0 (Z.min (x0 + tile) W) (Z.min (y0 + tile) H).
Proof.
  unfold tile_windows. rewrite in_flat_map. split.
  - intros [y0 [Hy Ht]]. apply in_map_iff in Ht. destruct Ht as [x0 [Ht Hx]].
    exists y0, x0. auto.
  - intros [y0 [x0 [Hy [Hx Ht]]]]. exists y0. split; [exact Hy|].
    apply in_map_iff. exists x0. auto.
Qed.

Lemma tile_step_pos (tile overlap : Z) : 0 < tile_step tile overlap.
Proof. unfold tile_step. lia. Qed.

(** C2: for [H > 0], [W > 0], [tile_size > 0] and [0 <= overlap < tile_size]
    the windows of the tile partitioner cover the image exactly: a pixel lies
    in the image if and only if it lies in some window. *)
Theorem tile_windows_cover (H W tile overlap : Z) :
  0 < H -> 0 < W -> 0 < tile -> 0 <= overlap < tile ->
  forall y x,
    (0 <= y < H /\ 0 <= x < W)
    <-> exists t, In t (tile_windows H W tile overlap) /\ in_tile t y x.
Proof.
  intros HH HW Ht Ho y x.
  pose proof (tile_step_pos tile overlap) as Hs.
  assert (Hst : tile_step tile overlap <= tile) by (unfold tile_step; lia).
  split.
  - intros [Hy Hx].
    destruct (py_range_reaches H _ y Hs Hy) as [y0 [Iy By]].
    destruct (py_range_reaches W _ x Hs Hx) as [x0 [Ix Bx]].
    exists (mkTile x0 y0 (Z.min (x0 + tile) W) (Z.min (y0 + tile) H)).
    split.
    + apply in_tile_windows. exists y0, x0. auto.
    + unfold in_tile. simpl. lia.
  - intros [t [It [Iy Ix]]].
    apply in_tile_windows in It. destruct It as [y0 [x0 [Ry [Rx Et]]]].
    subst t. simpl in Iy, Ix.
    apply in_py_range in Ry; [|exact Hs]. apply in_py_range in Rx; [|exact Hs].
    destruct Ry as [i [Hi [Ey _]]]. destruct Rx as [j [Hj [Ex _]]].
    assert (0 <= y0) by nia. assert (0 <= x0) by nia.
    lia.
Qed.

Lemma tile_windows_cover_witness :
  (0 <= 1500 < 2048 /\ 0 <= 2047 < 2048)
  <-> exists t, In t (tile_windows 2048 2048 1024 256) /\ in_tile t 1500 2047.
Proof.
  apply (tile_windows_cover 2048 2048 1024 256); lia.
Defined.

(** The scenario of the specification: a 2048 x 2048 image with tiles of
    1024 and an overlap of 256 has the nine origins of a 3 x 3 grid. *)
Example tile_windows_2048 :
  map (fun t => (t_x0 t, t_y0 t)) (tile_windows 2048 2048 1024 256)
  = [(0, 0); (768, 0); (1536, 0);
     (0, 768); (768, 768); (1536, 768);
     (0, 1536); (768, 1536); (1536, 1536)].
Proof. reflexivity. Qed.

(** ** Non-max suppression *)

#[local] Hint Constructors Subseq : core.

Lemma Subseq_refl {A : Type} (l : list A) : Subseq l l.
Proof. induction l; auto. Qed.

Lemma Subseq_trans {A : Type} (k l m : list A) :
  Subseq k l -> Subseq l m -> Subseq k m.
Proof.
  intros Hkl Hlm. revert k Hkl.
  induction Hlm; intros k' Hkl; auto.
  inversion Hkl; subst; auto.
Qed.

Lemma Subseq_filter {A : Type} (f : A -> bool) (l : list A) :
  Subseq (filter f l) l.
Proof. induction l as [|a l IH]; simpl; [|destruct (f a)]; auto. Qed.

Lemma Subseq_incl {A : Type} (k l : list A) : Subseq k l -> incl k l.
Proof.
  induction 1 as [|a k l _ IH|a k l _ IH]; intros x Hx.
  - exact Hx.
  - destruct Hx as [->|Hx]; [left; reflexivity|right; apply IH, Hx].
  - right. apply IH, Hx.
Qed.

Lemma Subseq_length {A : Type} (k l : list A) :
  Subseq k l -> (List.length k <= List.length l)%nat.
Proof. induction 1; simpl; lia. Qed.

Lemma Subseq_Forall {A : Type} (P : A -> Prop) (k l : list A) :
  Subseq k l -> Forall P l -> Forall P k.
Proof.
  intros Hs Hl. apply Forall_forall. intros x Hx.
  eapply Forall_forall; [exact Hl|]. eapply Subseq_incl; eassumption.
Qed.

Lemma Subseq_pairs {A : Type} (R : A -> A -> Prop) (k l : list A) :
  Subseq k l -> ForallOrdPairs R l -> ForallOrdPairs R k.
Proof.
  induction 1 as [|a k l Hs IH|a k l Hs IH]; intro Hl.
  - constructor.
  - inversion Hl; subst. constructor; [|auto].
    eapply Subseq_Forall; eassumption.
  - inversion Hl; subst. auto.
Qed.

Section NMS_properties.

Context {A : Type}.
Variable box_of : A -> Box.
Variable score_of : A -> Q.
Variable iou_threshold : Q.

Lemma insert_desc_perm (d : A) (l : list A) :
  Permutation (insert_desc score_of d l) (d :: l).
Proof.
  induction l as [|e l IH]; simpl; [reflexivity|].
  destruct (Py.ltb (score_of d) (score_of e)); [|reflexivity].
  rewrite IH. apply perm_swap.
Qed.

Lemma sort_desc_perm (l : list A) : Permutation (sort_desc score_of l) l.
Proof.
  induction l as [|d l IH]; simpl; [reflexivity|].
  rewrite insert_desc_perm. constructor. exact IH.
Qed.

Lemma insert_desc_descending (d : A) (l : list A) :
  Descending score_of l -> Descending score_of (insert_desc score_of d l).
Proof.
  unfold Descending.
  induction l as [|e l IH]; intro Hl; simpl.
  - constructor; constructor.
  - inversion Hl as [|? ? He Hl']; subst.
    destruct (Py.ltb (score_of d) (score_of e)) eqn:E.
    + constructor; [|auto].
      apply (Permutation_Forall (Permutation_sym (insert_desc_perm d l))).
      constructor; [|exact He].
      apply ltb_lt in E. apply Qlt_le_weak, E.
    + apply ltb_ge in E. constructor; [|exact Hl].
      constructor; [exact E|].
      eapply Forall_impl; [|exact He].
      intros b Hb. simpl in Hb. eapply Qle_trans; eassumption.
Qed.

Lemma sort_desc_descending (l : list A) : Descending score_of (sort_desc score_of l).
Proof.
  induction l as [|d l IH]; simpl.
  - constructor.
  - apply insert_desc_descending, IH.
Qed.

(** Sorting leaves a list in descending order unchanged. *)
Lemma sort_desc_fixed (l : list A) : Descending score_of l -> sort_desc score_of l = l.
Proof.
  induction l as [|d l IH]; intro Hl; simpl; [reflexivity|].
  inversion Hl as [|? ? Hd Hl']; subst.
  rewrite (IH Hl').
  destruct l as [|e l]; simpl; [reflexivity|].
  inversion Hd as [|? ? He _]; subst.
  apply ltb_ge in He. rewrite He. reflexivity.
Qed.

Lemma greedy_subseq (l : list A) : Subseq (greedy box_of iou_threshold l) l.
Proof.
  funelim (greedy box_of iou_threshold l).
  - constructor.
  - constructor. eapply Subseq_trans; [eassumption|apply Subseq_filter].
Qed.

Lemma greedy_unsuppressed (l : list A) : Unsuppressed box_of iou_threshold (greedy box_of iou_threshold l).
Proof.
  unfold Unsuppressed. funelim (greedy box_of iou_threshold l).
  - constructor.
  - constructor; [|assumption].
    apply Forall_forall. intros e He.
    apply (Subseq_incl _ _ (greedy_subseq _)) in He.
    apply filter_In in He. destruct He as [_ He].
    apply negb_true_iff, He.
Qed.

(** A list in which no row suppresses box_of iou_threshold a later one is kept as a whole. *)
Lemma greedy_fixed (l : list A) : Unsuppressed box_of iou_threshold l -> greedy box_of iou_threshold l = l.
Proof.
  induction l as [|d l IH]; intro Hl; simp greedy; [reflexivity|].
  inversion Hl as [|? ? Hd Hl']; subst.
  assert (F : filter (fun e => negb (suppresses box_of iou_threshold d e)) l = l).
  { apply forallb_filter_id, forallb_forall. intros e He.
    rewrite Forall_forall in Hd. rewrite (Hd e He). reflexivity. }
  rewrite F, (IH Hl'). reflexivity.
Qed.

Lemma nms_descending (l : list A) : Descending score_of (nms box_of score_of iou_threshold l).
Proof.
  unfold nms. eapply Subseq_pairs; [apply greedy_subseq|].
  apply sort_desc_descending.
Qed.

(** C3: greedy box_of iou_threshold non-max suppression is idempotent, and its output is a part of
    its input: every kept row is an input row, the kept rows are a
    subsequence of a rearrangement of the input, and they are not more
    numerous than the input rows. *)
Theorem nms_idempotent_subset (l : list A) :
  nms box_of score_of iou_threshold (nms box_of score_of iou_threshold l) = nms box_of score_of iou_threshold l
  /\ incl (nms box_of score_of iou_threshold l) l
  /\ (List.length (nms box_of score_of iou_threshold l) <= List.length l)%nat
  /\ exists l', Permutation l' l /\ Subseq (nms box_of score_of iou_threshold l) l'.
Proof.
  split; [|split; [|split]].
  - unfold nms at 1.
    rewrite (sort_desc_fixed _ (nms_descending l)).
    unfold nms. apply greedy_fixed, greedy_unsuppressed.
  - intros x Hx. unfold nms in Hx.
    apply (Subseq_incl _ _ (greedy_subseq _)) in Hx.
    eapply Permutation_in; [apply sort_desc_perm|exact Hx].
  - unfold nms.
    rewrite <- (Permutation_length (sort_desc_perm l)).
    apply Subseq_length, greedy_subseq.
  - exists (sort_desc score_of l). split; [apply sort_desc_perm|apply greedy_subseq].
Qed.

End NMS_properties.

(** The scenario of the specification: two boxes with an IoU of 0.5 and
    confidences 0.8 and 0.6 under the threshold 0.35: the box of confidence
    0.8 alone survives. *)
Example nms_two_boxes :
  let a := mkRawDet (mkBox 0 0 30 20) (6 # 10) 0 in
  let b := mkRawDet (mkBox 10 0 40 20) (8 # 10) 0 in
  (iou_of (r_box a) (r_box b) == 1 # 2)%Q
  /\ nms r_box r_score nms_threshold [a; b] = [b].
Proof. split; reflexivity. Qed.

(** ** The per-tile loop *)

Lemma collect_raise_inv (m : Model) (args : PredictArgs) (ts : list Tile) (e : exn) :
  collect m args ts = Raise e ->
  exists t, In t ts /\ predict m t args = Raise e.
Proof.
  induction ts as [|t ts IH]; simpl; [discriminate|].
  destruct (predict m t args) as [r|e0] eqn:P; simpl.
  - destruct (collect m args ts) as [rest|e1]; simpl; [discriminate|].
    intro H. injection H as ->.
    destruct (IH eq_refl) as [t' [Ht' Pt']]. exists t'. auto.
  - intro H. injection H as ->. exists t. auto.
Qed.

Lemma collect_raises (m : Model) (args : PredictArgs) (ts : list Tile)
    (t : Tile) (e : exn) :
  In t ts -> predict m t args = Raise e ->
  exists e', collect m args ts = Raise e'.
Proof.
  induction ts as [|t0 ts IH]; simpl; [contradiction|].
  intros Ht Pt.
  destruct (predict m t0 args) as [r|e0] eqn:P; simpl; [|eauto].
  destruct Ht as [->|Ht]; [congruence|].
  destruct (IH Ht Pt) as [e' ->]. simpl. eauto.
Qed.

Lemma collect_returns (m : Model) (args : PredictArgs) (ts : list Tile) :
  (forall t, In t ts -> exists r, predict m t args = Ok r) ->
  exists all, collect m args ts = Ok all.
Proof.
  induction ts as [|t ts IH]; simpl; intro Hall; [eauto|].
  destruct (Hall t (or_introl eq_refl)) as [r ->]. simpl.
  destruct IH as [rest ->]; [intros; apply Hall; auto|].
  simpl. eauto.
Qed.

Lemma detect_cars_raise_inv (H W : Z) (m : Model)
    (conf : Q) (imgsz tile overlap : Z) (iou : Q) (up : bool) (max_det : Z) (e : exn) :
  detect_cars H W m conf imgsz tile overlap iou up max_det = Raise e ->
  exists t,
    In t (tile_windows (resized H (upscale_factor H W up))
                       (resized W (upscale_factor H W up)) tile overlap)
    /\ predict m t (mkPredictArgs conf iou imgsz max_det) = Raise e.
Proof.
  unfold detect_cars. cbv zeta.
  destruct (collect _ _ _) as [all|e0] eqn:C; simpl.
  - destruct all; discriminate.
  - intro X. injection X as ->. eapply collect_raise_inv, C.
Qed.

Lemma detect_cars_returns (H W : Z) (m : Model)
    (conf : Q) (imgsz tile overlap : Z) (iou : Q) (up : bool) (max_det : Z) :
  (forall t,
      In t (tile_windows (resized H (upscale_factor H W up))
                         (resized W (upscale_factor H W up)) tile overlap) ->
      exists r, predict m t (mkPredictArgs conf iou imgsz max_det) = Ok r) ->
  exists ds, detect_cars H W m conf imgsz tile overlap iou up max_det = Ok ds.
Proof.
  intro Hall. unfold detect_cars. cbv zeta.
  destruct (collect_returns _ _ _ Hall) as [all ->]. simpl.
  destruct all; eauto.
Qed.




(** ** Post-processing order *)

Lemma keep_row_stages (m : Model) (scale : Q) (r : RawDet) :
  keep_row m scale r
  = if vehicle_row m r
    then if plausible (scale_back scale (r_box r))
         then Some (detection_of m (scale_back scale (r_box r)) r)
         else None
    else None.
Proof.
  unfold keep_row, vehicle_row, class_name_of, plausible, detection_of, scale_back.
  destruct (mem_string _ VEHICLE_CLASS_NAMES); simpl; [|reflexivity].
  destruct (negb (Qeq_bool scale 1)); simpl;
    repeat match goal with
           | |- context [if ?c then _ else _] => destruct c; simpl; try reflexivity
           end.
Qed.

Lemma post_loop_from (m : Model) (scale : Q) (keep : list RawDet) (out : list Detection) :
  fold_left
    (fun out r => match keep_row m scale r with
                  | Some d => out ++ [d]
                  | None => out
                  end)
    keep out
  = out ++ post_divide_then_filter m scale keep.
Proof.
  revert out. unfold post_divide_then_filter.
  induction keep as [|r keep IH]; intro out; simpl.
  - symmetry. apply app_nil_r.
  - rewrite IH, keep_row_stages.
    destruct (vehicle_row m r); simpl; [|reflexivity].
    destruct (plausible (scale_back scale (r_box r))); simpl; [|reflexivity].
    rewrite <- app_assoc. reflexivity.
Qed.

Lemma post_loop_stages (m : Model) (scale : Q) (keep : list RawDet) :
  post_loop m scale keep = post_divide_then_filter m scale keep.
Proof. unfold post_loop. apply post_loop_from. Qed.

(** C6, as the specification states it, fails: the size filter reads the box
    after the divide-back.  A car of 10 x 10 pixels of the upscaled image is
    dropped by the code (5 x 5 after the division), and would be kept by a
    filter reading the upscaled box. *)
Lemma filter_reads_divided_box :
  let row := mkRawDet (mkBox 10 10 20 20) (9 # 10) 0 in
  let keep := nms r_box r_score nms_threshold [row] in
  upscale_factor 600 600 true = 2%Q
  /\ keep = [row]
  /\ post_loop small_box_model 2 keep = []
  /\ post_filter_then_divide small_box_model 2 keep
     = [mkDetection 5 5 10 10 (9 # 10) 0 "car"]
  /\ detect_cars 600 600 small_box_model (5 # 100) 1536 1024 256 (1 # 2) true 5000
     = Ok []
  /\ ~ (forall m scale keep,
           post_loop m scale keep = post_filter_then_divide m scale keep).
Proof.
  cbv zeta. repeat split; try reflexivity.
  intro Hclaim.
  specialize (Hclaim small_box_model 2%Q
                     [mkRawDet (mkBox 10 10 20 20) (9 # 10) 0]).
  vm_compute in Hclaim. discriminate.
Qed.

Lemma upscale_factor_cases (H W : Z) (up : bool) :
  upscale_factor H W up = 1%Q \/ upscale_factor H W up = 2%Q.
Proof. unfold upscale_factor. destruct (up && _); auto. Qed.

(** C6, amended: the global NMS reads the boxes of the upscaled image; every
    kept row of a vehicle class is divided by the scale once, after the NMS
    and the class filter; the size and aspect filters read the divided box,
    and the returned coordinates are those of the divided box. *)
Theorem detect_cars_divides_once (H W : Z) (m : Model)
    (conf : Q) (imgsz tile overlap : Z) (iou : Q) (up : bool) (max_det : Z)
    (all : list RawDet) :
  let scale := upscale_factor H W up in
  collect m (mkPredictArgs conf iou imgsz max_det)
          (tile_windows (resized H scale) (resized W scale) tile overlap)
  = Ok all ->
  let keep := nms r_box r_score nms_threshold all in
  detect_cars H W m conf imgsz tile overlap iou up max_det
  = Ok (map (fun r => detection_of m (scale_back scale (r_box r)) r)
            (filter (fun r => plausible (scale_back scale (r_box r)))
                    (filter (vehicle_row m) keep)))
  /\ (forall b, scale_back 1 b = b)
  /\ (forall b, scale_back 2 b
                = mkBox (b_x1 b / 2) (b_y1 b / 2) (b_x2 b / 2) (b_y2 b / 2))
  /\ (scale = 1%Q \/ scale = 2%Q).
Proof.
  cbv zeta. intro C. split; [|split; [|split]].
  - unfold detect_cars. cbv zeta. rewrite C. simpl.
    destruct all as [|r all']; [reflexivity|].
    rewrite post_loop_stages. reflexivity.
  - reflexivity.
  - reflexivity.
  - apply upscale_factor_cases.
Qed.

Lemma detect_cars_divides_once_witness :
  detect_cars 600 600 small_box_model (5 # 100) 1536 1024 256 (1 # 2) true 5000
  = Ok (map (fun r => detection_of small_box_model
                        (scale_back (upscale_factor 600 600 true) (r_box r)) r)
          (filter (fun r => plausible (scale_back (upscale_factor 600 600 true) (r_box r)))
             (filter (vehicle_row small_box_model)
                (nms r_box r_score nms_threshold
                   [mkRawDet (mkBox 10 10 20 20) (9 # 10) 0])))).
Proof.
  apply (detect_cars_divides_once 600 600 small_box_model (5 # 100) 1536 1024 256
           (1 # 2) true 5000 [mkRawDet (mkBox 10 10 20 20) (9 # 10) 0]).
  reflexivity.
Defined.

(** ** A failing model call *)

(** C8, as the specification states it, fails: the model fails on the first
    window and finds a car in the second one; the area is left with no
    detection, where tile-level recovery would keep the car. *)
Lemma failed_tile_loses_other_tiles :
  detect_cars 600 600 one_bad_tile_model (5 # 100) 1536 1024 256 (1 # 2) true 5000
  = Raise (RuntimeError "inference failed")
  /\ area_detections 600 600 one_bad_tile_model (5 # 100) 1536 1024 256 = []
  /\ area_detections 600 600 (zero_on_failure one_bad_tile_model)
                     (5 # 100) 1536 1024 256
     = [mkDetection 389 5 409 20 (9 # 10) 0 "car"]
  /\ ~ (forall H W m det_conf imgsz tile overlap,
           area_detections H W m det_conf imgsz tile overlap
           = area_detections H W (zero_on_failure m) det_conf imgsz tile overlap).
Proof.
  repeat split; try reflexivity.
  intro Hclaim.
  specialize (Hclaim 600 600 one_bad_tile_model (5 # 100) 1536 1024 256).
  vm_compute in Hclaim. discriminate.
Qed.

(** C8, amended: when the model call fails on a tile, [detect_cars] raises
    the exception of a failed call and returns no detection of any tile;
    [app.py] catches it, goes on with an empty detection list for the area,
    and the area's estimate is the area-based one. *)
Theorem failed_tile_aborts_detection (H W : Z) (m : Model)
    (det_conf : Q) (imgsz tile overlap : Z) (t : Tile) (e : exn)
    (area_m2 occupancy min_coverage blend_strength : Q) :
  let scale := upscale_factor H W true in
  let windows := tile_windows (resized H scale) (resized W scale) tile overlap in
  let args := mkPredictArgs det_conf (1 # 2) imgsz 5000 in
  In t windows -> predict m t args = Raise e ->
  (0 <= area_m2)%Q -> (0 < occupancy)%Q -> (occupancy <= 1)%Q ->
  (exists e' t',
      detect_cars H W m det_conf imgsz tile overlap (1 # 2) true 5000 = Raise e'
      /\ In t' windows /\ predict m t' args = Raise e')
  /\ area_detections H W m det_conf imgsz tile overlap = []
  /\ exists est,
       estimate_area
         (Z.of_nat (List.length (area_detections H W m det_conf imgsz tile overlap)))
         area_m2 occupancy min_coverage blend_strength = Ok est
       /\ n_cars_of est = 0
       /\ estimate_spots_from_area area_m2 default_m2_per_spot = Ok (capacity est)
       /\ reliability_note (blend_of est) = Unreliable.
Proof.
  cbv zeta. intros Ht Pt Ha Hpos Hle.
  assert (R : exists e', detect_cars H W m det_conf imgsz tile overlap (1 # 2) true 5000
                         = Raise e').
  { unfold detect_cars. cbv zeta.
    destruct (collect_raises _ _ _ _ _ Ht Pt) as [e' ->]. simpl. eauto. }
  destruct R as [e' R].
  assert (D : area_detections H W m det_conf imgsz tile overlap = []).
  { unfold area_detections. rewrite R. reflexivity. }
  split; [|split].
  - destruct (detect_cars_raise_inv _ _ _ _ _ _ _ _ _ _ _ R) as [t' [It' Pt']].
    exists e', t'. auto.
  - exact D.
  - rewrite D. simpl List.length. simpl Z.of_nat.
    destruct (estimate_area_no_cars area_m2 occupancy min_coverage blend_strength
                Ha Hpos Hle) as [est [E [Hc Hr]]].
    exists est. split; [exact E|]. split; [|auto].
    unfold estimate_area in E.
    rewrite (cars_guard_passes 0 occupancy) in E by (assumption || lia).
    rewrite (area_guard_passes area_m2 default_m2_per_spot) in E
      by (assumption || reflexivity).
    simpl in E. injection E as <-. reflexivity.
Qed.

Lemma failed_tile_aborts_detection_witness :
  area_detections 600 600 one_bad_tile_model (5 # 100) 1536 1024 256 = []
  /\ exists est,
       estimate_area
         (Z.of_nat (List.length
            (area_detections 600 600 one_bad_tile_model (5 # 100) 1536 1024 256)))
         1800 (6 # 10) min_coverage_const blend_strength_const = Ok est
       /\ n_cars_of est = 0
       /\ estimate_spots_from_area 1800 default_m2_per_spot = Ok (capacity est)
       /\ reliability_note (blend_of est) = Unreliable.
Proof.
  apply (failed_tile_aborts_detection 600 600 one_bad_tile_model (5 # 100)
           1536 1024 256 (mkTile 0 0 1024 1024) (RuntimeError "inference failed")
           1800 (6 # 10) min_coverage_const blend_strength_const).
  - simpl. left. reflexivity.
  - reflexivity.
  - unfold Qle; simpl; lia.
  - reflexivity.
  - unfold Qle; simpl; lia.
Defined.

(** * Further properties of the sources *)

(** ** Rounding *)

Lemma floor_spec (x : Q) : (inject_Z (Qfloor x) <= x < inject_Z (Qfloor x) + 1)%Q.
Proof.
  split; [apply Qfloor_le|].
  pose proof (Qlt_floor x) as H. rewrite inject_Z_plus in H. exact H.
Qed.

Lemma floor_unique (x : Q) (z : Z) :
  (inject_Z z <= x < inject_Z z + 1)%Q -> Qfloor x = z.
Proof.
  intros [H1 H2]. pose proof (floor_spec x) as [F1 F2].
  assert (A : (inject_Z z < inject_Z (Qfloor x) + 1)%Q) by lra.
  assert (B : (inject_Z (Qfloor x) < inject_Z z + 1)%Q) by lra.
  change 1%Q with (inject_Z 1) in A, B.
  rewrite <- inject_Z_plus, <- Zlt_Qlt in A, B. lia.
Qed.

Lemma round_cases (x : Q) :
  (Py.round x = Qfloor x /\ (x - inject_Z (Qfloor x) <= 1 # 2)%Q)
  \/ (Py.round x = Qfloor x + 1 /\ (1 # 2 <= x - inject_Z (Qfloor x))%Q).
Proof.
  unfold Py.round. cbv zeta.
  destruct (Py.ltb (x - inject_Z (Qfloor x)) (1 # 2)) eqn:E1.
  - apply ltb_lt in E1. left. split; [reflexivity|lra].
  - apply ltb_ge in E1.
    destruct (Py.ltb (1 # 2) (x - inject_Z (Qfloor x))) eqn:E2.
    + right. split; [reflexivity|exact E1].
    + apply ltb_ge in E2. destruct (Z.even (Qfloor x)).
      * left. split; [reflexivity|exact E2].
      * right. split; [reflexivity|exact E1].
Qed.

Lemma round_near (x : Q) :
  (inject_Z (Py.round x) - (1 # 2) <= x <= inject_Z (Py.round x) + (1 # 2))%Q.
Proof.
  pose proof (floor_spec x) as [F1 F2].
  destruct (round_cases x) as [[-> H]|[-> H]].
  - lra.
  - rewrite inject_Z_plus. change (inject_Z 1) with 1%Q. lra.
Qed.

Lemma round_inject_Z (z : Z) : Py.round (inject_Z z) = z.
Proof.
  pose proof (round_cases (inject_Z z)) as H.
  rewrite Qfloor_Z in H.
  destruct H as [[-> _]|[_ H]]; [reflexivity|].
  exfalso. lra.
Qed.

Lemma ltb_comp (x x' y y' : Q) :
  (x == x')%Q -> (y == y')%Q -> Py.ltb x y = Py.ltb x' y'.
Proof.
  intros Hx Hy.
  destruct (Py.ltb x y) eqn:E; symmetry.
  - apply ltb_lt. apply ltb_lt in E. rewrite <- Hx, <- Hy. exact E.
  - apply ltb_ge. apply ltb_ge in E. rewrite <- Hx, <- Hy. exact E.
Qed.

Lemma round_comp (x y : Q) : (x == y)%Q -> Py.round x = Py.round y.
Proof.
  intro H. unfold Py.round. cbv zeta.
  assert (F : Qfloor x = Qfloor y) by (rewrite H; reflexivity).
  rewrite F.
  rewrite (ltb_comp (x - inject_Z (Qfloor y)) (y - inject_Z (Qfloor y)) (1 # 2) (1 # 2))
    by (try rewrite H; reflexivity).
  rewrite (ltb_comp (1 # 2) (1 # 2) (x - inject_Z (Qfloor y)) (y - inject_Z (Qfloor y)))
    by (try rewrite H; reflexivity).
  reflexivity.
Qed.

Lemma round_mono (x y : Q) : (x <= y)%Q -> Py.round x <= Py.round y.
Proof.
  intro Hxy.
  pose proof (Qfloor_resp_le _ _ Hxy) as Hf.
  destruct (Z.eq_dec (Qfloor x) (Qfloor y)) as [E|NE].
  - unfold Py.round. cbv zeta. rewrite E.
    destruct (Py.ltb (x - inject_Z (Qfloor y)) (1 # 2)) eqn:X1.
    + destruct (Py.ltb (y - inject_Z (Qfloor y)) (1 # 2));
        [lia|destruct (Py.ltb (1 # 2) (y - inject_Z (Qfloor y)));
             [lia|destruct (Z.even (Qfloor y)); lia]].
    + apply ltb_ge in X1.
      destruct (Py.ltb (y - inject_Z (Qfloor y)) (1 # 2)) eqn:Y1.
      { apply ltb_lt in Y1. exfalso. lra. }
      destruct (Py.ltb (1 # 2) (x - inject_Z (Qfloor y))) eqn:X2.
      * apply ltb_lt in X2.
        assert (Y2 : Py.ltb (1 # 2) (y - inject_Z (Qfloor y)) = true)
          by (apply ltb_lt; lra).
        rewrite Y2. lia.
      * destruct (Py.ltb (1 # 2) (y - inject_Z (Qfloor y)));
          [destruct (Z.even (Qfloor y)); lia|lia].
  - assert (Qfloor x + 1 <= Qfloor y) by lia.
    destruct (round_cases x) as [[-> _]|[-> _]];
      destruct (round_cases y) as [[-> _]|[-> _]]; lia.
Qed.

Lemma round_between (a b : Z) (x : Q) :
  (inject_Z a <= x)%Q -> (x <= inject_Z b)%Q -> a <= Py.round x <= b.
Proof.
  intros Ha Hb. split.
  - rewrite <- (round_inject_Z a). apply round_mono, Ha.
  - rewrite <- (round_inject_Z b). apply round_mono, Hb.
Qed.

(** ** estimate.py, further properties *)

Lemma leb_gt (x y : Q) : Py.leb x y = false <-> (y < x)%Q.
Proof.
  unfold Py.leb. split; intro H.
  - apply Qnot_le_lt. intro L. apply Qle_bool_iff in L. congruence.
  - destruct (Qle_bool x y) eqn:E; [|reflexivity].
    apply Qle_bool_iff in E. exfalso. exact (Qlt_not_le _ _ H E).
Qed.

(** X1: the errors of [estimate_spots_from_cars] on a binary64 occupancy.  An
    occupancy that is not above 0 or is above 1 gives the first
    [ValueError], whatever [n_cars] is; a negative [n_cars] gives the second
    one; a NaN occupancy passes both guards and makes the conversion fail;
    a value is returned exactly when the occupancy lies in (0, 1],
    [n_cars] is non-negative and converts to a float, and the quotient is
    finite. *)
Theorem estimate_spots_from_cars_errors (n_cars : Z) (occupancy : B64.float) :
  (B64.leb occupancy B64.zero = true \/ B64.ltb B64.one occupancy = true ->
     B64.estimate_spots_from_cars n_cars occupancy
     = Raise (ValueError "occupancy must be in (0, 1]"))
  /\ (B64.leb occupancy B64.zero = false -> B64.ltb B64.one occupancy = false ->
      n_cars < 0 ->
      B64.estimate_spots_from_cars n_cars occupancy
      = Raise (ValueError "n_cars must be non-negative"))
  /\ (occupancy = S754_nan -> 0 <= n_cars ->
      exists msg,
        B64.estimate_spots_from_cars n_cars occupancy = Raise (OverflowError msg)
        \/ B64.estimate_spots_from_cars n_cars occupancy = Raise (ValueError msg))
  /\ ((exists spots, B64.estimate_spots_from_cars n_cars occupancy = Ok spots)
      <-> B64.ltb B64.zero occupancy = true
          /\ B64.leb occupancy B64.one = true
          /\ 0 <= n_cars
          /\ exists x,
               B64.of_int n_cars = Ok x
               /\ B64.is_finite (SFdiv B64.prec B64.emax x occupancy) = true).
Proof.
  assert (E1 : B64.leb occupancy B64.zero = true \/ B64.ltb B64.one occupancy = true ->
               B64.estimate_spots_from_cars n_cars occupancy
               = Raise (ValueError "occupancy must be in (0, 1]")).
  { intro H. unfold B64.estimate_spots_from_cars.
    assert (G : B64.leb occupancy B64.zero || B64.ltb B64.one occupancy = true)
      by (apply orb_true_iff; exact H).
    rewrite G. reflexivity. }
  assert (E2 : B64.leb occupancy B64.zero = false ->
               B64.ltb B64.one occupancy = false -> n_cars < 0 ->
               B64.estimate_spots_from_cars n_cars occupancy
               = Raise (ValueError "n_cars must be non-negative")).
  { intros G1 G2 Hn. unfold B64.estimate_spots_from_cars.
    rewrite G1, G2, (proj2 (Z.ltb_lt n_cars 0) Hn). reflexivity. }
  split; [exact E1|]. split; [exact E2|]. split; [|split].
  - intros -> Hn.
    rewrite cars_after_guards by (exact Hn || reflexivity).
    destruct (of_int_cases n_cars) as [[x [Ex [Hx Fx]]]|[s [msg [_ Ex]]]];
      rewrite Ex; cbv beta iota delta [bind B64.truediv].
    + destruct x; try discriminate; cbn [SFdiv B64.ceil]; eauto.
    + eauto.
  - intros [spots Hs].
    destruct (B64.leb occupancy B64.zero) eqn:G1;
      [rewrite E1 in Hs by auto; discriminate|].
    destruct (B64.ltb B64.one occupancy) eqn:G2;
      [rewrite E1 in Hs by auto; discriminate|].
    destruct (Z_lt_le_dec n_cars 0) as [Hn|Hn];
      [rewrite E2 in Hs by auto; discriminate|].
    rewrite cars_after_guards in Hs by assumption.
    destruct (B64.of_int n_cars) as [x|e] eqn:Ex; [|discriminate].
    cbv beta iota delta [bind B64.truediv] in Hs.
    assert (Hocc : B64.ltb B64.zero occupancy = true
                   /\ B64.leb occupancy B64.one = true
                   /\ B64.is_finite (SFdiv B64.prec B64.emax x occupancy) = true).
    { destruct occupancy as [so|so| |so mo eo]; try discriminate.
      - destruct so; discriminate.
      - destruct x; discriminate.
      - destruct so; [discriminate|].
        split; [reflexivity|]. split.
        + unfold B64.leb, B64.ltb, SFleb, SFltb in *.
          rewrite (SFcompare_antisym (S754_finite false mo eo) B64.one) in G2.
          destruct (SFcompare (S754_finite false mo eo) B64.one) as [[]|] eqn:C;
            cbn [option_map CompOpp] in G2; try reflexivity; discriminate.
        + destruct (SFdiv B64.prec B64.emax x (S754_finite false mo eo));
            try reflexivity; discriminate. }
    destruct Hocc as [H1 [H2 H3]]. repeat split; try assumption. eauto.
  - intros [Hpos [Hle [Hn [x [Ex Fq]]]]].
    rewrite cars_after_guards;
      [|exact Hn|apply ltb_true_leb_false, Hpos|apply leb_true_ltb_false, Hle].
    rewrite Ex. cbv beta iota delta [bind B64.truediv].
    destruct (positive_unit_finite occupancy Hpos Hle) as [m [e ->]].
    destruct (SFdiv B64.prec B64.emax x (S754_finite false m e));
      try discriminate; eexists; reflexivity.
Qed.





(** ** combine_estimates *)

Lemma half_floor (s : Z) : Qfloor (inject_Z s / 2) = s / 2.
Proof.
  apply floor_unique.
  pose proof (Z.div_mod s 2 ltac:(lia)) as Hdm.
  pose proof (Z.mod_pos_bound s 2 ltac:(lia)) as Hmod.
  assert (E : (inject_Z s == 2 * inject_Z (s / 2) + inject_Z (s mod 2))%Q).
  { rewrite Hdm at 1. rewrite inject_Z_plus, inject_Z_mult. reflexivity. }
  assert (L : (0 <= inject_Z (s mod 2))%Q)
    by (change 0%Q with (inject_Z 0); rewrite <- Zle_Qle; lia).
  assert (U : (inject_Z (s mod 2) < 2)%Q)
    by (change 2%Q with (inject_Z 2); rewrite <- Zlt_Qlt; lia).
  split.
  - apply Qle_shift_div_l; [reflexivity|]. lra.
  - apply Qlt_shift_div_r; [reflexivity|]. lra.
Qed.

Lemma round_half (s : Z) :
  Py.round (inject_Z s / 2)
  = if Z.even s then s / 2
    else if Z.even (s / 2) then s / 2 else s / 2 + 1.
Proof.
  pose proof (Z.div_mod s 2 ltac:(lia)) as Hdm.
  pose proof (Zmod_even s) as Hev.
  destruct (Z.even s).
  - assert (E : (inject_Z s / 2 == inject_Z (s / 2))%Q).
    { rewrite Hdm at 1. rewrite Hev, Z.add_0_r, inject_Z_mult.
      change (inject_Z 2) with 2%Q. field. }
    rewrite (round_comp _ _ E). apply round_inject_Z.
  - assert (E : (inject_Z s / 2 - inject_Z (s / 2) == 1 # 2)%Q).
    { rewrite Hdm at 1. rewrite Hev, inject_Z_plus, inject_Z_mult.
      change (inject_Z 2) with 2%Q. change (inject_Z 1) with 1%Q. field. }
    unfold Py.round. cbv zeta. rewrite half_floor.
    rewrite (ltb_comp _ (1 # 2) (1 # 2) (1 # 2) E (Qeq_refl _)).
    rewrite (ltb_comp (1 # 2) (1 # 2) _ (1 # 2) (Qeq_refl _) E).
    reflexivity.
Qed.

Lemma combine_estimates_between (a b : Z) :
  0 <= a -> a <= b -> a <= combine_estimates a b <= b.
Proof.
  intros Ha Hab. unfold combine_estimates.
  assert (R : a <= Py.round (inject_Z (a + b) / 2) <= b).
  { assert (La : (inject_Z a <= inject_Z b)%Q) by (rewrite <- Zle_Qle; exact Hab).
    apply round_between.
    - apply Qle_shift_div_l; [reflexivity|]. rewrite inject_Z_plus. lra.
    - apply Qle_shift_div_r; [reflexivity|]. rewrite inject_Z_plus. lra. }
  lia.
Qed.

(** X6: [combine_estimates] in integer arithmetic, for a sum that a double
    holds exactly (at most 2^53 in absolute value): the half of an even sum;
    for an odd sum the even one of the two neighbours of the half (Python
    rounds ties to even); never negative.  It is symmetric, and the
    combination of two non-negative estimates lies between them. *)
Theorem combine_estimates_closed_form (a b : Z) :
  Z.abs (a + b) <= 2 ^ 53 ->
  combine_estimates a b
  = Z.max 0 (if Z.even (a + b) then (a + b) / 2
             else if Z.even ((a + b) / 2) then (a + b) / 2
             else (a + b) / 2 + 1)
  /\ combine_estimates b a = combine_estimates a b
  /\ (0 <= a -> 0 <= b ->
      Z.min a b <= combine_estimates a b <= Z.max a b).
Proof.
  intros _. split; [|split].
  - unfold combine_estimates. rewrite round_half. reflexivity.
  - unfold combine_estimates. rewrite (Z.add_comm b a). reflexivity.
  - intros Ha Hb. destruct (Z_le_gt_dec a b) as [Hab|Hab].
    + pose proof (combine_estimates_between a b Ha Hab). lia.
    + pose proof (combine_estimates_between b a Hb ltac:(lia)) as Hba.
      unfold combine_estimates in *. rewrite (Z.add_comm a b). lia.
Qed.

Lemma combine_estimates_closed_form_witness :
  combine_estimates 60 67
  = Z.max 0 (if Z.even (60 + 67) then (60 + 67) / 2
             else if Z.even ((60 + 67) / 2) then (60 + 67) / 2
             else (60 + 67) / 2 + 1)
  /\ combine_estimates 67 60 = combine_estimates 60 67
  /\ (0 <= 60 -> 0 <= 67 ->
      Z.min 60 67 <= combine_estimates 60 67 <= Z.max 60 67).
Proof.
  apply (combine_estimates_closed_form 60 67). vm_compute. discriminate.
Defined.

(** ** Uncertainty and blending *)

Lemma pymax_cases (a b : Q) :
  (Py.max a b = a /\ (b <= a)%Q) \/ (Py.max a b = b /\ (a < b)%Q).
Proof.
  unfold Py.max. destruct (Py.ltb a b) eqn:E.
  - right. split; [reflexivity|apply ltb_lt, E].
  - left. split; [reflexivity|apply ltb_ge, E].
Qed.

Lemma pymin_cases (a b : Q) :
  (Py.min a b = a /\ (a <= b)%Q) \/ (Py.min a b = b /\ (b < a)%Q).
Proof.
  unfold Py.min. destruct (Py.ltb b a) eqn:E.
  - right. split; [reflexivity|apply ltb_lt, E].
  - left. split; [reflexivity|apply ltb_ge, E].
Qed.

Lemma pymax_ge (a b : Q) : (a <= Py.max a b /\ b <= Py.max a b)%Q.
Proof. destruct (pymax_cases a b) as [[-> H]|[-> H]]; split; lra. Qed.

(** X7: The uncertainty band is symmetric in the two estimates; it is at least
    half of their distance and at least a tenth of their sum, up to the
    rounding. *)
Theorem capacity_uncertainty_bounds (spots_from_area spots_from_cars : Z) :
  capacity_uncertainty spots_from_cars spots_from_area
  = capacity_uncertainty spots_from_area spots_from_cars
  /\ Z.abs (spots_from_area - spots_from_cars)
     <= 2 * capacity_uncertainty spots_from_area spots_from_cars + 1
  /\ spots_from_area + spots_from_cars
     <= 10 * capacity_uncertainty spots_from_area spots_from_cars + 5.
Proof.
  split.
  - unfold capacity_uncertainty, Py.abs. cbv zeta.
    rewrite (Z.add_comm spots_from_cars spots_from_area).
    replace (Z.abs (spots_from_cars - spots_from_area))
      with (Z.abs (spots_from_area - spots_from_cars)) by lia.
    reflexivity.
  - unfold capacity_uncertainty, Py.abs. cbv zeta.
    set (s := Z.abs (spots_from_area - spots_from_cars)).
    set (t := spots_from_area + spots_from_cars).
    set (x := Py.max (inject_Z s / 2) ((2 # 10) * inject_Z t / 2)).
    pose proof (round_near x) as [_ Hx].
    pose proof (pymax_ge (inject_Z s / 2) ((2 # 10) * inject_Z t / 2)) as [M1 M2].
    fold x in M1, M2.
    set (r := Py.round x) in *.
    assert (D1 : (inject_Z s / 2 == inject_Z s * (1 # 2))%Q) by (unfold Qdiv; reflexivity).
    assert (D2 : ((2 # 10) * inject_Z t / 2 == inject_Z t * (1 # 10))%Q) by field.
    rewrite D1 in M1. rewrite D2 in M2.
    assert (A : (inject_Z s <= 2 * inject_Z r + 1)%Q) by lra.
    assert (B : (inject_Z t <= 10 * inject_Z r + 5)%Q) by lra.
    change 2%Q with (inject_Z 2) in A. change 1%Q with (inject_Z 1) in A.
    change 10%Q with (inject_Z 10) in B. change 5%Q with (inject_Z 5) in B.
    rewrite <- inject_Z_mult, <- inject_Z_plus, <- Zle_Qle in A, B.
    lia.
Qed.

Lemma ramp_of_bounds (cov occupancy min_coverage : Q) :
  (0 <= ramp_of cov occupancy min_coverage <= 1)%Q.
Proof.
  unfold ramp_of. cbv zeta.
  set (v := ((cov - min_coverage) / _)%Q).
  pose proof (pymax_ge 0 v) as [Y0 _].
  set (y := Py.max 0 v) in *.
  destruct (pymin_cases 1 y) as [[-> H]|[-> H]]; split; lra.
Qed.

Lemma weight_cars_bounds
    (n_cars spots_from_area spots_from_cars : Z)
    (occupancy min_coverage blend_strength : Q) :
  (0 <= blend_strength)%Q ->
  (0 <= weight_cars (blend n_cars spots_from_area spots_from_cars
                           occupancy min_coverage blend_strength)
   <= blend_strength)%Q.
Proof.
  intro Hb. unfold blend. cbv zeta.
  destruct ((n_cars =? 0) || Py.ltb _ min_coverage); simpl.
  - split; [apply Qle_refl|exact Hb].
  - pose proof (ramp_of_bounds (coverage n_cars spots_from_area)
                  occupancy min_coverage) as [R0 R1].
    set (r := ramp_of _ _ _) in *. split.
    + apply Qmult_le_0_compat; assumption.
    + rewrite <- (Qmult_1_r blend_strength) at 2.
      rewrite !(Qmult_comm blend_strength).
      apply Qmult_le_compat_r; assumption.
Qed.

(** X8: The weight given to the detector never exceeds [blend_strength]. *)
Theorem weight_cars_capped
    (n_cars spots_from_area spots_from_cars : Z)
    (occupancy min_coverage blend_strength : Q) :
  (0 <= blend_strength)%Q ->
  (0 <= weight_cars (blend n_cars spots_from_area spots_from_cars
                           occupancy min_coverage blend_strength)
   <= blend_strength)%Q.
Proof. exact (weight_cars_bounds n_cars spots_from_area spots_from_cars occupancy min_coverage blend_strength). Qed.

Lemma weight_cars_capped_witness :
  (0 <= weight_cars (blend 10 60 17 (6 # 10) min_coverage_const blend_strength_const)
   <= blend_strength_const)%Q.
Proof.
  apply (weight_cars_capped 10 60 17 (6 # 10) min_coverage_const blend_strength_const).
  unfold Qle; simpl; lia.
Defined.

Lemma combined_bounds
    (n_cars spots_from_area spots_from_cars : Z)
    (occupancy min_coverage blend_strength : Q) :
  (0 <= blend_strength)%Q -> (blend_strength <= 1)%Q ->
  Z.min spots_from_area spots_from_cars
  <= combined (blend n_cars spots_from_area spots_from_cars
                     occupancy min_coverage blend_strength)
  <= Z.max spots_from_area spots_from_cars.
Proof.
  intros Hb0 Hb1.
  pose proof (weight_cars_bounds n_cars spots_from_area spots_from_cars
                occupancy min_coverage blend_strength Hb0) as [W0 W1].
  revert W0 W1. unfold blend. cbv zeta.
  destruct ((n_cars =? 0) || Py.ltb _ min_coverage); simpl; [lia|].
  set (w := (blend_strength * ramp_of _ _ _)%Q). intros W0 W1.
  assert (Lm : (inject_Z (Z.min spots_from_area spots_from_cars) <= inject_Z spots_from_area
                /\ inject_Z (Z.min spots_from_area spots_from_cars) <= inject_Z spots_from_cars)%Q)
    by (rewrite <- !Zle_Qle; lia).
  assert (LM : (inject_Z spots_from_area <= inject_Z (Z.max spots_from_area spots_from_cars)
                /\ inject_Z spots_from_cars <= inject_Z (Z.max spots_from_area spots_from_cars))%Q)
    by (rewrite <- !Zle_Qle; lia).
  destruct Lm as [Lm1 Lm2]. destruct LM as [LM1 LM2].
  apply round_between; nra.
Qed.

(** X9: With a blend strength in [0, 1] the combined estimate lies between the
    two estimates. *)
Theorem combined_between_estimates
    (n_cars spots_from_area spots_from_cars : Z)
    (occupancy min_coverage blend_strength : Q) :
  (0 <= blend_strength)%Q -> (blend_strength <= 1)%Q ->
  Z.min spots_from_area spots_from_cars
  <= combined (blend n_cars spots_from_area spots_from_cars
                     occupancy min_coverage blend_strength)
  <= Z.max spots_from_area spots_from_cars.
Proof. exact (combined_bounds n_cars spots_from_area spots_from_cars occupancy min_coverage blend_strength). Qed.

Lemma combined_between_estimates_witness :
  Z.min 60 67
  <= combined (blend 40 60 67 (6 # 10) min_coverage_const blend_strength_const)
  <= Z.max 60 67.
Proof.
  apply (combined_between_estimates 40 60 67 (6 # 10)
           min_coverage_const blend_strength_const);
    unfold Qle; simpl; lia.
Defined.

(** X10: At the gate ([coverage] equal to [min_coverage]) the Blended state gives
    the figures of the Unreliable state: weight 0 and the area estimate. *)
Theorem blend_continuous_at_gate
    (n_cars spots_from_area spots_from_cars : Z)
    (occupancy min_coverage blend_strength : Q) :
  n_cars <> 0 -> (coverage n_cars spots_from_area == min_coverage)%Q ->
  let b := blend n_cars spots_from_area spots_from_cars
                 occupancy min_coverage blend_strength in
  (exists w, reliability_note b = Blended w)
  /\ (weight_cars b == 0)%Q
  /\ combined b = spots_from_area.
Proof.
  intros Hn Hc. cbv zeta.
  rewrite blend_blended by (exact Hn || (rewrite Hc; apply Qle_refl)).
  cbv zeta. simpl.
  assert (R : ramp_of (coverage n_cars spots_from_area) occupancy min_coverage = 0%Q).
  { unfold ramp_of. cbv zeta.
    set (v := ((_ - min_coverage) / _)%Q).
    assert (V : (v == 0)%Q).
    { unfold v, Qdiv. rewrite Hc.
      setoid_replace (min_coverage - min_coverage)%Q with 0%Q by ring.
      apply Qmult_0_l. }
    destruct (pymax_cases 0 v) as [[-> _]|[_ H]]; [reflexivity|].
    exfalso. rewrite V in H. exact (Qlt_irrefl 0 H). }
  rewrite R. split; [eauto|]. split; [apply Qmult_0_r|].
  rewrite <- (round_inject_Z spots_from_area) at 2.
  apply round_comp. ring.
Qed.

Lemma blend_continuous_at_gate_witness :
  let b := blend 3 60 5 (6 # 10) min_coverage_const blend_strength_const in
  (exists w, reliability_note b = Blended w)
  /\ (weight_cars b == 0)%Q
  /\ combined b = 60.
Proof.
  apply (blend_continuous_at_gate 3 60 5 (6 # 10)
           min_coverage_const blend_strength_const).
  - discriminate.
  - reflexivity.
Defined.

(** X11: Once the coverage reaches the assumed occupancy the ramp is saturated:
    the detector gets the full [blend_strength]. *)
Theorem blend_saturated
    (n_cars spots_from_area spots_from_cars : Z)
    (occupancy min_coverage blend_strength : Q) :
  n_cars <> 0 ->
  (min_coverage + (1 # 1000000) <= occupancy)%Q ->
  (occupancy <= coverage n_cars spots_from_area)%Q ->
  let b := blend n_cars spots_from_area spots_from_cars
                 occupancy min_coverage blend_strength in
  (weight_cars b == blend_strength)%Q
  /\ combined b
     = Py.round ((1 - blend_strength) * inject_Z spots_from_area
                 + blend_strength * inject_Z spots_from_cars).
Proof.
  intros Hn Ho Hc. cbv zeta.
  rewrite blend_blended by (exact Hn || lra).
  cbv zeta. simpl.
  assert (R : ramp_of (coverage n_cars spots_from_area) occupancy min_coverage = 1%Q).
  { unfold ramp_of. cbv zeta.
    set (c := coverage n_cars spots_from_area) in *.
    set (d := Py.max (1 # 1000000) (occupancy - min_coverage)).
    assert (D : (0 < d /\ d <= occupancy - min_coverage)%Q).
    { unfold d. destruct (pymax_cases (1 # 1000000) (occupancy - min_coverage))
        as [[-> H]|[-> H]]; split; lra. }
    destruct D as [D0 D1].
    assert (V : (1 <= (c - min_coverage) / d)%Q).
    { apply Qle_shift_div_l; [exact D0|]. lra. }
    set (v := ((c - min_coverage) / d)%Q) in *.
    destruct (pymax_cases 0 v) as [[_ H]|[-> _]]; [exfalso; lra|].
    destruct (pymin_cases 1 v) as [[-> _]|[_ H]]; [reflexivity|exfalso; lra]. }
  rewrite R. split; [apply Qmult_1_r|].
  apply round_comp. ring.
Qed.

Lemma blend_saturated_witness :
  let b := blend 40 60 67 (6 # 10) min_coverage_const blend_strength_const in
  (weight_cars b == blend_strength_const)%Q
  /\ combined b
     = Py.round ((1 - blend_strength_const) * inject_Z 60
                 + blend_strength_const * inject_Z 67).
Proof.
  apply (blend_saturated 40 60 67 (6 # 10) min_coverage_const blend_strength_const).
  - discriminate.
  - unfold Qle; simpl; lia.
  - unfold Qle; simpl; lia.
Defined.

(** ** The estimate of one area *)

Lemma estimate_area_valid
    (n_cars : Z) (area_m2 occupancy min_coverage blend_strength : Q) :
  0 <= n_cars -> (0 <= area_m2)%Q -> (0 < occupancy)%Q -> (occupancy <= 1)%Q ->
  (0 <= blend_strength)%Q -> (blend_strength <= 1)%Q ->
  exists est,
    estimate_area n_cars area_m2 occupancy min_coverage blend_strength = Ok est
    /\ n_cars <= spots_from_cars_of est
    /\ 0 <= spots_from_area_of est
    /\ capacity est = combined (blend_of est)
    /\ Z.min (spots_from_area_of est) (spots_from_cars_of est) <= capacity est
       <= Z.max (spots_from_area_of est) (spots_from_cars_of est)
    /\ occupied est = n_cars
    /\ 0 <= free_spots est <= capacity est
    /\ occupied est + free_spots est = Z.max (capacity est) (occupied est)
    /\ 1 <= uncertainty_of est.
Proof.
  intros Hn Ha Hp Hl Hb0 Hb1. unfold estimate_area.
  rewrite (cars_guard_passes n_cars occupancy) by assumption.
  rewrite (area_guard_passes area_m2 default_m2_per_spot) by (assumption || reflexivity).
  cbv beta iota delta [bind].
  set (c := Z.max n_cars (Py.ceil (inject_Z n_cars / occupancy))).
  set (a := Z.max 0 (Qfloor (area_m2 / default_m2_per_spot))).
  pose proof (combined_bounds n_cars a c occupancy min_coverage
                blend_strength Hb0 Hb1) as Hbetween.
  set (b := blend n_cars a c occupancy min_coverage blend_strength) in *.
  match goal with |- exists est, Ok ?e = Ok est /\ _ => exists e end.
  split; [reflexivity|].
  cbv beta iota delta [capacity occupied free_spots spots_from_cars_of
                       spots_from_area_of uncertainty_of blend_of].
  assert (Hc : n_cars <= c) by (unfold c; lia).
  assert (Ha0 : 0 <= a) by (unfold a; lia).
  assert (Hk : 0 <= combined b) by lia.
  rewrite (Z.max_r 0 (combined b)) by exact Hk.
  repeat split; try lia.
  apply capacity_uncertainty_floor.
Qed.





(** ** The confidence label *)

Lemma sum_from_bounds (lo hi : Q) (l : list Q) (acc : Q) :
  Forall (fun c => lo <= c <= hi)%Q l ->
  (acc + lo * inject_Z (Z.of_nat (List.length l))
   <= fold_left Qplus l acc
   <= acc + hi * inject_Z (Z.of_nat (List.length l)))%Q.
Proof.
  intro Hl. revert acc.
  induction Hl as [|c l [Hc1 Hc2] _ IH]; intro acc.
  - simpl. change (inject_Z 0) with 0%Q. split; lra.
  - cbn [fold_left List.length]. rewrite Nat2Z.inj_succ.
    unfold Z.succ. rewrite inject_Z_plus. change (inject_Z 1) with 1%Q.
    destruct (IH (acc + c)%Q) as [I1 I2].
    set (k := inject_Z (Z.of_nat (List.length l))) in *.
    set (s := fold_left Qplus l (acc + c)%Q) in *.
    split; lra.
Qed.

Lemma avg_conf_between (detections : list Detection) (lo hi : Q) :
  detections <> [] ->
  (forall d, In d detections -> (lo <= conf d <= hi)%Q) ->
  (lo <= avg_conf detections <= hi)%Q.
Proof.
  intros Hne Hall.
  destruct detections as [|d0 ds]; [congruence|].
  unfold avg_conf.
  set (l := d0 :: ds) in *.
  assert (F : Forall (fun c => lo <= c <= hi)%Q (map conf l)).
  { apply Forall_forall. intros c Hc. apply in_map_iff in Hc.
    destruct Hc as [d [<- Hd]]. apply Hall, Hd. }
  pose proof (sum_from_bounds lo hi (map conf l) 0 F) as [S1 S2].
  rewrite length_map in S1, S2.
  set (k := inject_Z (Z.of_nat (List.length l))) in *.
  assert (K : (0 < k)%Q).
  { unfold k, l. change 0%Q with (inject_Z 0). rewrite <- Zlt_Qlt.
    simpl List.length. lia. }
  split.
  - apply Qle_shift_div_l; [exact K|]. lra.
  - apply Qle_shift_div_r; [exact K|]. lra.
Qed.

Lemma conf_strict_upper (l : list Detection) (bound : Q) :
  l <> [] -> (forall d, In d l -> (conf d < bound)%Q) ->
  exists hi, (hi < bound)%Q /\ forall d, In d l -> (conf d <= hi)%Q.
Proof.
  induction l as [|d l IH]; [congruence|]. intros _ Hall.
  destruct l as [|d' l'].
  - exists (conf d). split; [apply Hall; left; reflexivity|].
    intros x [<-|[]]. apply Qle_refl.
  - destruct IH as [hi [Hh Hhi]];
      [discriminate|intros x Hx; apply Hall; right; exact Hx|].
    destruct (Qlt_le_dec hi (conf d)) as [H|H].
    + exists (conf d). split; [apply Hall; left; reflexivity|].
      intros x [<-|Hx]; [apply Qle_refl|].
      apply Qlt_le_weak. eapply Qle_lt_trans; [apply Hhi, Hx|exact H].
    + exists hi. split; [exact Hh|].
      intros x [<-|Hx]; [exact H|apply Hhi, Hx].
Qed.

Lemma conf_upper (l : list Detection) :
  exists hi, forall d, In d l -> (conf d <= hi)%Q.
Proof.
  induction l as [|d l [hi Hhi]]; [exists 0%Q; intros d []|].
  destruct (Qlt_le_dec hi (conf d)) as [H|H].
  - exists (conf d). intros x [<-|Hx]; [apply Qle_refl|].
    apply Qlt_le_weak. eapply Qle_lt_trans; [apply Hhi, Hx|exact H].
  - exists hi. intros x [<-|Hx]; [exact H|apply Hhi, Hx].
Qed.

Lemma conf_lower (l : list Detection) :
  exists lo, forall d, In d l -> (lo <= conf d)%Q.
Proof.
  induction l as [|d l [lo Hlo]]; [exists 0%Q; intros d []|].
  destruct (Qlt_le_dec (conf d) lo) as [H|H].
  - exists (conf d). intros x [<-|Hx]; [apply Qle_refl|].
    apply Qlt_le_weak. eapply Qlt_le_trans; [exact H|apply Hlo, Hx].
  - exists lo. intros x [<-|Hx]; [exact H|apply Hlo, Hx].
Qed.

(** X14: The confidence label: "low" without detections or when every confidence
    is below 0.4, "high" when every confidence is at least 0.7, "medium"
    when every confidence lies in between. *)
Theorem conf_label_of_detections (detections : list Detection) :
  (detections = [] -> conf_label (avg_conf detections) = "low"%string)
  /\ (detections <> [] ->
      (forall d, In d detections -> (7 # 10 <= conf d)%Q) ->
      conf_label (avg_conf detections) = "high"%string)
  /\ (detections <> [] ->
      (forall d, In d detections -> (4 # 10 <= conf d < 7 # 10)%Q) ->
      conf_label (avg_conf detections) = "medium"%string)
  /\ ((forall d, In d detections -> (conf d < 4 # 10)%Q) ->
      conf_label (avg_conf detections) = "low"%string).
Proof.
  split; [intros ->; reflexivity|]. split; [|split].
  - intros Hne Hall.
    destruct (conf_upper detections) as [hi Hhi].
    destruct (avg_conf_between detections (7 # 10) hi Hne) as [A _];
      [intros d Hd; split; [apply Hall|apply Hhi]; exact Hd|].
    unfold conf_label. rewrite (proj2 (leb_le _ _) A). reflexivity.
  - intros Hne Hall.
    destruct (conf_strict_upper detections (7 # 10) Hne) as [hi [Hh Hhi]];
      [intros d Hd; apply Hall, Hd|].
    destruct (avg_conf_between detections (4 # 10) hi Hne) as [A B];
      [intros d Hd; split; [apply Hall|apply Hhi]; exact Hd|].
    unfold conf_label.
    rewrite (proj2 (leb_gt (7 # 10) (avg_conf detections))) by lra.
    rewrite (proj2 (leb_le _ _) A). reflexivity.
  - intros Hall.
    destruct detections as [|d0 ds]; [reflexivity|].
    set (l := d0 :: ds) in *.
    assert (Hne : l <> []) by discriminate.
    destruct (conf_strict_upper l (4 # 10) Hne Hall) as [hi [Hh Hhi]].
    destruct (conf_lower l) as [lo Hlo].
    destruct (avg_conf_between l lo hi Hne) as [_ B];
      [intros d Hd; split; [apply Hlo|apply Hhi]; exact Hd|].
    unfold conf_label.
    rewrite (proj2 (leb_gt (7 # 10) (avg_conf l))) by lra.
    rewrite (proj2 (leb_gt (4 # 10) (avg_conf l))) by lra.
    reflexivity.
Qed.

(** ** The loop over the areas *)

Lemma estimate_area_metrics
    (n_cars : Z) (area_m2 occupancy min_coverage blend_strength : Q)
    (est : AreaEstimate) :
  estimate_area n_cars area_m2 occupancy min_coverage blend_strength = Ok est ->
  0 <= occupied est
  /\ 0 <= free_spots est <= capacity est
  /\ capacity est <= free_spots est + occupied est.
Proof.
  unfold estimate_area.
  destruct (estimate_spots_from_cars n_cars occupancy) as [c|e]; [|discriminate].
  destruct (estimate_spots_from_area area_m2 default_m2_per_spot) as [a|e];
    [|discriminate].
  cbv beta iota delta [bind]. intro E. injection E as <-.
  cbv beta iota delta [capacity occupied free_spots]. lia.
Qed.

Lemma area_detections_on_failure (H W : Z) (m : Model)
    (det_conf : Q) (imgsz tile overlap : Z) (t : Tile) (e : exn) :
  In t (tile_windows (resized H (upscale_factor H W true))
                     (resized W (upscale_factor H W true)) tile overlap) ->
  predict m t (mkPredictArgs det_conf (1 # 2) imgsz 5000) = Raise e ->
  area_detections H W m det_conf imgsz tile overlap = [].
Proof.
  intros Ht Pt. unfold area_detections, detect_cars. cbv zeta.
  destruct (collect_raises _ _ _ _ _ Ht Pt) as [e' ->]. reflexivity.
Qed.

Section App_properties.

Variable Bounds : Type.
Variable Image : Type.
Variable image_shape : Image -> Z * Z.
Variable mosaic : Bounds -> Z -> result Image.
Variable predict_on : Image -> Tile -> PredictArgs -> result (list RawDet).
Variable model_names : Z -> option string.

(** X15: The imagery of an area: a failed first fetch fails the area; the image
    returned is the one fetched at the zoom reported, which is the base zoom
    or the next one and is only raised below 20; an image kept without a
    retry that was allowed is high enough; a failed retry fails the area
    although the first image had been fetched. *)
Theorem fetch_area_image_retry (cfg : Settings) (bounds : Bounds) :
  let fetched := fetch_area_image Bounds Image image_shape mosaic cfg bounds in
  let zoom := cfg_zoom cfg in
  (forall e, mosaic bounds zoom = Raise e -> fetched = Raise e)
  /\ (forall img z, fetched = Ok (img, z) ->
        mosaic bounds z = Ok img
        /\ (z = zoom
            \/ (z = zoom + 1 /\ zoom < 20 /\ cfg_auto_zoom_retry cfg = true))
        /\ (z = zoom -> cfg_auto_zoom_retry cfg = true -> zoom < 20 ->
            cfg_min_img_height cfg <= fst (image_shape img)))
  /\ (forall img e,
        mosaic bounds zoom = Ok img ->
        cfg_auto_zoom_retry cfg = true ->
        fst (image_shape img) < cfg_min_img_height cfg ->
        zoom < 20 ->
        mosaic bounds (zoom + 1) = Raise e ->
        fetched = Raise e).
Proof.
  cbv zeta. unfold fetch_area_image. cbv zeta.
  split; [|split].
  - intros e ->. reflexivity.
  - intros img z.
    destruct (mosaic bounds (cfg_zoom cfg)) as [img0|e0] eqn:F0; [|discriminate].
    cbv beta iota delta [bind].
    destruct (cfg_auto_zoom_retry cfg) eqn:A;
      destruct (fst (image_shape img0) <? cfg_min_img_height cfg) eqn:S;
      destruct (cfg_zoom cfg <? 20) eqn:Z20; cbn [andb];
      try (intro E; injection E as <- <-;
           apply Z.ltb_ge in S || apply Z.ltb_ge in Z20 || idtac;
           split; [exact F0|]; split; [left; reflexivity|]; intros; lia || congruence).
    destruct (mosaic bounds (cfg_zoom cfg + 1)) as [img1|e1] eqn:F1; [|discriminate].
    intro E. injection E as <- <-. apply Z.ltb_lt in Z20.
    split; [exact F1|]. split; [right; auto|]. intros; lia.
  - intros img e F0 A S Z20 F1. rewrite F0. cbv beta iota delta [bind].
    rewrite A, (proj2 (Z.ltb_lt _ _) S), (proj2 (Z.ltb_lt _ _) Z20). cbn [andb].
    rewrite F1. reflexivity.
Qed.

Lemma area_step_consistent (cfg : Settings) (tot tot' : Totals) (row : Q * Bounds) :
  totals_consistent tot ->
  area_step Bounds Image image_shape mosaic predict_on model_names cfg tot row
  = Ok tot' ->
  totals_consistent tot'.
Proof.
  intros Inv. unfold area_step.
  destruct (fetch_area_image _ _ _ _ _ _) as [[img z]|e].
  - destruct (estimate_area _ _ _ _ _) as [est|e] eqn:E; [|discriminate].
    cbv beta iota delta [bind]. intro X. injection X as <-.
    pose proof (estimate_area_metrics _ _ _ _ _ _ E).
    unfold totals_consistent in *. cbn [total_cars total_capacity total_free]. lia.
  - intro X. injection X as <-. exact Inv.
Qed.

(** X16: The totals over the areas: the free spots never exceed the capacity, and
    the capacity never exceeds the free spots plus the cars counted. *)
Theorem run_areas_totals (cfg : Settings) (rows : list (Q * Bounds)) (tot : Totals) :
  run_areas Bounds Image image_shape mosaic predict_on model_names cfg
            (mkTotals 0 0 0) rows = Ok tot ->
  0 <= total_cars tot
  /\ 0 <= total_free tot <= total_capacity tot
  /\ total_capacity tot <= total_free tot + total_cars tot.
Proof.
  assert (G : forall rows t0 t1,
             totals_consistent t0 ->
             run_areas Bounds Image image_shape mosaic predict_on model_names
                       cfg t0 rows = Ok t1 ->
             totals_consistent t1).
  { clear rows tot. induction rows as [|row rows IH]; intros t0 t1 Inv; simpl.
    - intro X. injection X as <-. exact Inv.
    - destruct (area_step _ _ _ _ _ _ _ _ _) as [t'|e] eqn:S; [|discriminate].
      cbv beta iota delta [bind]. apply IH.
      eapply area_step_consistent; eassumption. }
  apply G. unfold totals_consistent. simpl. lia.
Qed.


(** X18: An area whose detector fails on some window counts as empty: no car,
    and all the spots of the area-based estimate free. *)
Theorem area_step_detector_failure
    (cfg : Settings) (tot : Totals) (row : Q * Bounds)
    (img : Image) (z : Z) (t : Tile) (e : exn) :
  let H := fst (image_shape img) in
  let W := snd (image_shape img) in
  fetch_area_image Bounds Image image_shape mosaic cfg (snd row) = Ok (img, z) ->
  In t (tile_windows (resized H (upscale_factor H W true))
                     (resized W (upscale_factor H W true))
                     (cfg_tile cfg) (cfg_overlap cfg)) ->
  predict_on img t (mkPredictArgs (cfg_det_conf cfg) (1 # 2) (cfg_imgsz cfg) 5000)
  = Raise e ->
  (0 <= fst row)%Q -> (0 < cfg_occupancy cfg)%Q -> (cfg_occupancy cfg <= 1)%Q ->
  exists spots,
    estimate_spots_from_area (fst row) default_m2_per_spot = Ok spots
    /\ area_step Bounds Image image_shape mosaic predict_on model_names cfg tot row
       = Ok (mkTotals (total_cars tot)
                      (total_capacity tot + spots)
                      (total_free tot + spots)).
Proof.
  cbv zeta. intros F Ht Pt Ha Hp Hl.
  unfold area_step. rewrite F.
  assert (D : image_detections Image image_shape predict_on model_names cfg img = []).
  { unfold image_detections.
    eapply area_detections_on_failure; [exact Ht|exact Pt]. }
  rewrite D. simpl List.length. simpl Z.of_nat.
  destruct (estimate_area_no_cars (fst row) (cfg_occupancy cfg)
              min_coverage_const blend_strength_const Ha Hp Hl)
    as [est [E [Hc Hr]]].
  pose proof (estimate_area_valid 0 (fst row) (cfg_occupancy cfg)
                min_coverage_const blend_strength_const) as I.
  destruct I as [est' [E' [_ [_ [_ [_ [Ho [_ [Hf _]]]]]]]]];
    try assumption; try lia; try (unfold Qle; simpl; lia).
  rewrite E in E'. injection E' as <-.
  exists (capacity est). split; [exact Hc|].
  rewrite E. cbv beta iota delta [bind].
  pose proof (estimate_area_metrics _ _ _ _ _ _ E) as [M0 [M1 M2]].
  f_equal. f_equal; lia.
Qed.

End App_properties.

Lemma run_areas_totals_witness :
  0 <= total_cars (mkTotals 0 60 60)
  /\ 0 <= total_free (mkTotals 0 60 60) <= total_capacity (mkTotals 0 60 60)
  /\ total_capacity (mkTotals 0 60 60)
     <= total_free (mkTotals 0 60 60) + total_cars (mkTotals 0 60 60).
Proof.
  apply (run_areas_totals unit (Z * Z) (fun s => s) sample_mosaic sample_predict_on
           car_names sample_settings [(1800%Q, tt)] (mkTotals 0 60 60)).
  reflexivity.
Defined.


Lemma area_step_detector_failure_witness :
  exists spots,
    estimate_spots_from_area 1800 default_m2_per_spot = Ok spots
    /\ area_step unit (Z * Z) (fun s => s) sample_mosaic sample_predict_on car_names
                 sample_settings (mkTotals 5 100 95) (1800%Q, tt)
       = Ok (mkTotals 5 (100 + spots) (95 + spots)).
Proof.
  apply (area_step_detector_failure unit (Z * Z) (fun s => s) sample_mosaic
           sample_predict_on car_names sample_settings (mkTotals 5 100 95)
           (1800%Q, tt) (600, 600) 19 (mkTile 0 0 1024 1024)
           (RuntimeError "inference failed")).
  - reflexivity.
  - simpl. left. reflexivity.
  - reflexivity.
  - unfold Qle; simpl; lia.
  - reflexivity.
  - unfold Qle; simpl; lia.
Defined.

(** ** The global model *)

Section GlobalModel_properties.

Variable YOLO : string -> result Model.
Variable path_name : string -> string.
Variable path_parts : string -> list string.
Variable project_best_pt : string.

(** X19: After a successful [load_model] the loaded model is the global one:
    [_get_model] returns it without calling the constructor, and
    [detect_cars] runs on it. *)
Theorem load_model_then_get_model (model_name : string) (st : DetectState) (m : Model) :
  fst (load_model YOLO path_name path_parts project_best_pt model_name st) = Ok m ->
  let st1 := snd (load_model YOLO path_name path_parts project_best_pt model_name st) in
  _model st1 = Some m
  /\ yolo_calls st1
     = yolo_calls st
       ++ [_resolve_model_path path_name path_parts project_best_pt model_name]
  /\ _get_model YOLO path_name path_parts project_best_pt st1 = (Ok m, st1)
  /\ forall H W conf imgsz tile overlap iou up max_det,
       detect_cars_global YOLO path_name path_parts project_best_pt
                          H W conf imgsz tile overlap iou up max_det st1
       = (detect_cars H W m conf imgsz tile overlap iou up max_det, st1).
Proof.
  unfold load_model, construct.
  destruct (YOLO (_resolve_model_path _ _ _ model_name)) as [m0|e]; simpl;
    [|discriminate].
  intro E. injection E as ->.
  split; [reflexivity|]. split; [reflexivity|].
  split; [reflexivity|]. intros. reflexivity.
Qed.

(** X20: [_get_model] is lazy and loads once: a second call returns the same
    model, leaves the state as it is and does not call the constructor; a
    model already loaded is returned as it is. *)
Theorem get_model_loads_once (st : DetectState) (m : Model) :
  fst (_get_model YOLO path_name path_parts project_best_pt st) = Ok m ->
  let st1 := snd (_get_model YOLO path_name path_parts project_best_pt st) in
  _get_model YOLO path_name path_parts project_best_pt st1 = (Ok m, st1)
  /\ (forall m0, _model st = Some m0 -> m = m0 /\ st1 = st)
  /\ (_model st = None ->
      YOLO (_resolve_model_path path_name path_parts project_best_pt "models/best.pt")
      = Ok m
      /\ yolo_calls st1
         = yolo_calls st
           ++ [_resolve_model_path path_name path_parts project_best_pt
                                   "models/best.pt"]).
Proof.
  unfold _get_model. destruct (_model st) as [m0|] eqn:M; simpl.
  - intro E. injection E as ->. rewrite M.
    split; [reflexivity|]. split; [|discriminate].
    intros m1 E1. injection E1 as ->. auto.
  - unfold construct.
    destruct (YOLO (_resolve_model_path _ _ _ "models/best.pt")) as [m0|e];
      simpl; [|discriminate].
    intro E. injection E as ->.
    split; [reflexivity|]. split; [discriminate|]. auto.
Qed.

(** X21: A constructor that raises leaves the global model as it was: after a
    failed [load_model] the model loaded before is still served, and a
    failed lazy load is tried again by the next call. *)
Theorem failed_load_keeps_model (model_name : string) (st : DetectState) (e : exn) :
  fst (load_model YOLO path_name path_parts project_best_pt model_name st) = Raise e ->
  let st1 := snd (load_model YOLO path_name path_parts project_best_pt model_name st) in
  _model st1 = _model st
  /\ (forall m, _model st = Some m ->
        _get_model YOLO path_name path_parts project_best_pt st1 = (Ok m, st1))
  /\ (_model st = None ->
        yolo_calls (snd (_get_model YOLO path_name path_parts project_best_pt st1))
        = yolo_calls st1
          ++ [_resolve_model_path path_name path_parts project_best_pt
                                  "models/best.pt"]).
Proof.
  unfold load_model, construct.
  destruct (YOLO (_resolve_model_path _ _ _ model_name)) as [m0|e0]; simpl;
    [discriminate|].
  intros _. split; [reflexivity|]. split.
  - intros m M. unfold _get_model. simpl. rewrite M. reflexivity.
  - intros M. unfold _get_model. simpl. rewrite M. unfold construct.
    destruct (YOLO (_resolve_model_path _ _ _ "models/best.pt")); reflexivity.
Qed.

End GlobalModel_properties.

Lemma load_model_then_get_model_witness :
  let st1 := snd (load_model sample_YOLO sample_path_name sample_path_parts
                             "/srv/parkpulse/models/best.pt" "models/best.pt"
                             empty_state) in
  _model st1 = Some silent_model
  /\ yolo_calls st1 = ["/srv/parkpulse/models/best.pt"%string]
  /\ _get_model sample_YOLO sample_path_name sample_path_parts
                "/srv/parkpulse/models/best.pt" st1 = (Ok silent_model, st1).
Proof.
  pose proof (load_model_then_get_model sample_YOLO sample_path_name
                sample_path_parts "/srv/parkpulse/models/best.pt"
                "models/best.pt" empty_state silent_model eq_refl) as [A [B [C _]]].
  split; [exact A|]. split; [exact B|exact C].
Defined.

Lemma get_model_loads_once_witness :
  let st1 := snd (_get_model sample_YOLO sample_path_name sample_path_parts
                             "/srv/parkpulse/models/best.pt" empty_state) in
  _get_model sample_YOLO sample_path_name sample_path_parts
             "/srv/parkpulse/models/best.pt" st1 = (Ok silent_model, st1).
Proof.
  apply (get_model_loads_once sample_YOLO sample_path_name sample_path_parts
           "/srv/parkpulse/models/best.pt" empty_state silent_model).
  reflexivity.
Defined.

Lemma failed_load_keeps_model_witness :
  let st0 := mkDetectState (Some silent_model) [] in
  let st1 := snd (load_model sample_YOLO sample_path_name sample_path_parts
                             "/srv/parkpulse/models/best.pt" "yolov8n.pt" st0) in
  _model st1 = Some silent_model.
Proof.
  apply (failed_load_keeps_model sample_YOLO sample_path_name sample_path_parts
           "/srv/parkpulse/models/best.pt" "yolov8n.pt"
           (mkDetectState (Some silent_model) [])
           (RuntimeError "weights not found")).
  reflexivity.
Defined.

(** ** The tile provider *)

Lemma split_on_nonempty (sep : ascii) (s : string) : split_on sep s <> [].
Proof.
  destruct s as [|c s]; simpl; [discriminate|].
  destruct (Ascii.eqb c sep); [discriminate|].
  destruct (split_on sep s); discriminate.
Qed.

Lemma split_on_app (sep : ascii) (a b : string) :
  split_on sep (a ++ String sep b) = split_on sep a ++ split_on sep b.
Proof.
  induction a as [|c a IH]; simpl.
  - rewrite Ascii.eqb_refl. reflexivity.
  - destruct (Ascii.eqb c sep); rewrite IH; [reflexivity|].
    pose proof (split_on_nonempty sep a) as Hne.
    destruct (split_on sep a); [congruence|reflexivity].
Qed.

Lemma split_on_absent (sep : ascii) (s : string) :
  has_char sep s = false -> split_on sep s = [s].
Proof.
  induction s as [|c s IH]; simpl; [reflexivity|].
  intro H. apply orb_false_iff in H. destruct H as [Hc Hs].
  rewrite Hc, (IH Hs). reflexivity.
Qed.

Section TileProvider_properties.

Variable Obj : Type.
Variable getattr : Obj -> string -> result Obj.
Variable xyz_providers : Obj.

Lemma getattr_chain_app (obj : Obj) (p q : list string) :
  getattr_chain Obj getattr obj (p ++ q)
  = (o <- getattr_chain Obj getattr obj p ;; getattr_chain Obj getattr o q).
Proof.
  revert obj. induction p as [|x p IH]; intro obj; simpl; [reflexivity|].
  destruct (getattr obj x) as [o|e]; simpl; [apply IH|reflexivity].
Qed.

Lemma getattr_chain_one (obj : Obj) (part : string) :
  getattr_chain Obj getattr obj [part] = getattr obj part.
Proof. simpl. destruct (getattr obj part); reflexivity. Qed.

(** X22: A dotted provider name is resolved attribute by attribute from
    [xyzservices.providers]: a name without a dot is one attribute lookup,
    and [a.b] is the lookup of [b] in the object that [a] resolves to; a
    lookup that raises ends the resolution with its exception. *)
Theorem get_tile_provider_dotted (a b : string) :
  _get_tile_provider Obj getattr xyz_providers (a ++ "." ++ b)
  = (o <- _get_tile_provider Obj getattr xyz_providers a ;;
     getattr_chain Obj getattr o (split_on "." b))
  /\ (has_char "." b = false ->
      _get_tile_provider Obj getattr xyz_providers (a ++ "." ++ b)
      = (o <- _get_tile_provider Obj getattr xyz_providers a ;; getattr o b))
  /\ (has_char "." a = false ->
      _get_tile_provider Obj getattr xyz_providers a = getattr xyz_providers a).
Proof.
  assert (E : _get_tile_provider Obj getattr xyz_providers (a ++ "." ++ b)
              = (o <- _get_tile_provider Obj getattr xyz_providers a ;;
                 getattr_chain Obj getattr o (split_on "." b))).
  { unfold _get_tile_provider.
    change (a ++ "." ++ b)%string with (a ++ String "." b)%string.
    rewrite split_on_app. apply getattr_chain_app. }
  split; [exact E|]. split.
  - intro Hb. rewrite E, (split_on_absent _ _ Hb).
    destruct (_get_tile_provider Obj getattr xyz_providers a); simpl;
      [apply getattr_chain_one|reflexivity].
  - intro Ha. unfold _get_tile_provider. rewrite (split_on_absent _ _ Ha).
    apply getattr_chain_one.
Qed.

End TileProvider_properties.

(** ** Tiling, further properties *)

Lemma windows_inside (H W tile overlap : Z) (t : Tile) :
  0 < tile ->
  In t (tile_windows H W tile overlap) ->
  0 <= t_x0 t < t_x1 t /\ t_x1 t <= W /\ t_x1 t - t_x0 t <= tile
  /\ 0 <= t_y0 t < t_y1 t /\ t_y1 t <= H /\ t_y1 t - t_y0 t <= tile.
Proof.
  intros Ht It.
  pose proof (tile_step_pos tile overlap) as Hs.
  apply in_tile_windows in It. destruct It as [y0 [x0 [Ry [Rx ->]]]].
  apply in_py_range in Ry; [|exact Hs]. apply in_py_range in Rx; [|exact Hs].
  destruct Ry as [i [Hi [Ey Ly]]]. destruct Rx as [j [Hj [Ex Lx]]].
  assert (0 <= y0) by nia. assert (0 <= x0) by nia.
  simpl. lia.
Qed.

(** X23: With a positive tile size every window is non-empty, lies inside the
    image and is at most [tile] wide and high. *)
Theorem tile_windows_bounded (H W tile overlap : Z) (t : Tile) :
  0 < tile ->
  In t (tile_windows H W tile overlap) ->
  0 <= t_x0 t < t_x1 t /\ t_x1 t <= W /\ t_x1 t - t_x0 t <= tile
  /\ 0 <= t_y0 t < t_y1 t /\ t_y1 t <= H /\ t_y1 t - t_y0 t <= tile.
Proof. exact (windows_inside H W tile overlap t). Qed.

Lemma tile_windows_bounded_witness :
  0 <= t_x0 (mkTile 1536 768 2048 1792) < t_x1 (mkTile 1536 768 2048 1792)
  /\ t_x1 (mkTile 1536 768 2048 1792) <= 2048
  /\ t_x1 (mkTile 1536 768 2048 1792) - t_x0 (mkTile 1536 768 2048 1792) <= 1024
  /\ 0 <= t_y0 (mkTile 1536 768 2048 1792) < t_y1 (mkTile 1536 768 2048 1792)
  /\ t_y1 (mkTile 1536 768 2048 1792) <= 2048
  /\ t_y1 (mkTile 1536 768 2048 1792) - t_y0 (mkTile 1536 768 2048 1792) <= 1024.
Proof.
  apply (tile_windows_bounded 2048 2048 1024 256 (mkTile 1536 768 2048 1792)).
  - lia.
  - simpl. auto 10.
Defined.

(** X24: The windows cover the image for every non-negative overlap, also one as
    large as the tile or larger: the stride is then 1. *)
Theorem tile_windows_cover_any_overlap (H W tile overlap : Z) :
  0 < tile -> 0 <= overlap ->
  forall y x,
    (0 <= y < H /\ 0 <= x < W)
    <-> exists t, In t (tile_windows H W tile overlap) /\ in_tile t y x.
Proof.
  intros Ht Ho y x.
  pose proof (tile_step_pos tile overlap) as Hs.
  assert (Hst : tile_step tile overlap <= tile) by (unfold tile_step; lia).
  split.
  - intros [Hy Hx].
    destruct (py_range_reaches H _ y Hs Hy) as [y0 [Iy By]].
    destruct (py_range_reaches W _ x Hs Hx) as [x0 [Ix Bx]].
    exists (mkTile x0 y0 (Z.min (x0 + tile) W) (Z.min (y0 + tile) H)).
    split; [apply in_tile_windows; exists y0, x0; auto|].
    unfold in_tile. simpl. lia.
  - intros [t [It [Iy Ix]]].
    pose proof (windows_inside H W tile overlap t Ht It). lia.
Qed.

Lemma tile_windows_cover_any_overlap_witness :
  (0 <= 5 < 6 /\ 0 <= 4 < 6)
  <-> exists t, In t (tile_windows 6 6 2 3) /\ in_tile t 5 4.
Proof. apply (tile_windows_cover_any_overlap 6 6 2 3); lia. Defined.

(** X25: A negative overlap leaves gaps: in an image higher than the tile, no
    window contains a pixel of the row [tile]. *)
Theorem tile_windows_gap_negative_overlap (H W tile overlap : Z) :
  0 < tile -> overlap < 0 -> tile < H ->
  forall x t, In t (tile_windows H W tile overlap) -> ~ in_tile t tile x.
Proof.
  intros Ht Ho HH x t It [Iy _].
  pose proof (tile_step_pos tile overlap) as Hs.
  apply in_tile_windows in It. destruct It as [y0 [x0 [Ry [_ ->]]]].
  apply in_py_range in Ry; [|exact Hs].
  destruct Ry as [i [Hi [Ey _]]]. simpl in Iy.
  unfold tile_step in Ey.
  assert (i = 0 \/ 1 <= i) as [->|Hi1] by lia; [lia|nia].
Qed.

Lemma tile_windows_gap_negative_overlap_witness :
  ~ in_tile (mkTile 6 0 10 4) 4 7.
Proof.
  apply (tile_windows_gap_negative_overlap 10 10 4 (-2)); try lia.
  simpl. auto.
Defined.

Lemma flat_map_length_const {A B : Type} (f : A -> list B) (l : list A) (k : nat) :
  (forall a, List.length (f a) = k) ->
  List.length (flat_map f l) = (List.length l * k)%nat.
Proof.
  intro Hk. induction l as [|a l IH]; simpl; [reflexivity|].
  rewrite length_app, Hk, IH. reflexivity.
Qed.

Lemma py_range_length (stop step : Z) :
  0 < step -> 0 < stop ->
  Z.of_nat (List.length (py_range 0 stop step)) = (stop - 1) / step + 1.
Proof.
  intros Hs Hp. unfold py_range. rewrite length_map, length_seq.
  pose proof (range_len_nonneg 0 stop step Hs).
  rewrite Z2Nat.id by assumption.
  unfold range_len. rewrite (proj2 (Z.ltb_lt 0 stop) Hp).
  rewrite Z.sub_0_r. reflexivity.
Qed.

Lemma windows_count (H W tile overlap : Z) :
  0 < H -> 0 < W ->
  Z.of_nat (List.length (tile_windows H W tile overlap))
  = ((H - 1) / Z.max 1 (tile - overlap) + 1)
    * ((W - 1) / Z.max 1 (tile - overlap) + 1).
Proof.
  intros HH HW.
  pose proof (tile_step_pos tile overlap) as Hs.
  unfold tile_windows. cbv zeta.
  rewrite (flat_map_length_const _ _
             (List.length (py_range 0 W (tile_step tile overlap))))
    by (intro a; apply length_map).
  rewrite Nat2Z.inj_mul, !py_range_length by assumption.
  reflexivity.
Qed.

Lemma resized_upscaled (n H W : Z) (up : bool) :
  resized n (upscale_factor H W up)
  = (if up && (Z.min H W <? 2048) then 2 else 1) * n.
Proof.
  unfold resized, upscale_factor.
  destruct (up && (Z.min H W <? 2048)).
  - rewrite <- (round_inject_Z (2 * n)). apply round_comp.
    rewrite inject_Z_mult. change (inject_Z 2) with 2%Q. ring.
  - rewrite <- (round_inject_Z (1 * n)). apply round_comp.
    rewrite inject_Z_mult. change (inject_Z 1) with 1%Q. ring.
Qed.

(** X26: the number of windows that [detect_cars] enumerates for an input
    image of [H] by [W] pixels: the image is tiled after the upscaling by
    [s] (2 when [upscale_small] is set and the shorter side is below 2048,
    else 1), with the stride [max(1, tile - overlap)]. *)
Theorem detect_cars_window_count (H W tile overlap : Z) (up : bool) :
  0 < H -> 0 < W ->
  let s := if up && (Z.min H W <? 2048) then 2 else 1 in
  let step := Z.max 1 (tile - overlap) in
  Z.of_nat (List.length
              (tile_windows (resized H (upscale_factor H W up))
                            (resized W (upscale_factor H W up)) tile overlap))
  = ((s * H - 1) / step + 1) * ((s * W - 1) / step + 1).
Proof.
  intros HH HW. cbv zeta.
  rewrite !resized_upscaled.
  apply windows_count; destruct (up && (Z.min H W <? 2048)); lia.
Qed.

Lemma detect_cars_window_count_witness :
  Z.of_nat (List.length
              (tile_windows (resized 600 (upscale_factor 600 600 true))
                            (resized 600 (upscale_factor 600 600 true)) 1024 256))
  = (((if true && (Z.min 600 600 <? 2048) then 2 else 1) * 600 - 1)
       / Z.max 1 (1024 - 256) + 1)
    * (((if true && (Z.min 600 600 <? 2048) then 2 else 1) * 600 - 1)
         / Z.max 1 (1024 - 256) + 1).
Proof. apply (detect_cars_window_count 600 600 1024 256 true); lia. Defined.

(** The four windows of an upscaled image of 600 by 600 pixels. *)
Example detect_cars_windows_600 :
  List.length (tile_windows (resized 600 (upscale_factor 600 600 true))
                            (resized 600 (upscale_factor 600 600 true)) 1024 256)
  = 4%nat.
Proof. reflexivity. Qed.

(** ** The detections returned by [detect_cars] *)

Lemma int_near (x : Q) : (x - 1 < inject_Z (Py.int x) < x + 1)%Q.
Proof.
  destruct x as [n d]. unfold Py.int. simpl Qnum. simpl Qden.
  pose proof (Z.quot_rem' n (Zpos d)) as Hqr.
  pose proof (Z.rem_bound_abs n (Zpos d) ltac:(lia)) as Hr.
  set (q := Z.quot n (Zpos d)) in *. set (r := Z.rem n (Zpos d)) in *.
  unfold Qlt, Qminus, Qplus, Qopp, inject_Z. simpl.
  split; nia.
Qed.

Lemma int_diff (a b : Q) (lo hi : Z) :
  (inject_Z lo <= b - a)%Q -> (b - a <= inject_Z hi)%Q ->
  lo - 1 <= Py.int b - Py.int a <= hi + 1.
Proof.
  intros Hlo Hhi.
  pose proof (int_near a) as [A1 A2]. pose proof (int_near b) as [B1 B2].
  assert (L : (inject_Z lo - 2 < inject_Z (Py.int b) - inject_Z (Py.int a))%Q) by lra.
  assert (U : (inject_Z (Py.int b) - inject_Z (Py.int a) < inject_Z hi + 2)%Q) by lra.
  assert (L' : (inject_Z (lo - 2) < inject_Z (Py.int b - Py.int a))%Q).
  { unfold Z.sub. rewrite !inject_Z_plus, !inject_Z_opp.
    change (inject_Z 2) with 2%Q. lra. }
  assert (U' : (inject_Z (Py.int b - Py.int a) < inject_Z (hi + 2))%Q).
  { unfold Z.sub. rewrite !inject_Z_plus, !inject_Z_opp.
    change (inject_Z 2) with 2%Q. lra. }
  rewrite <- Zlt_Qlt in L', U'. lia.
Qed.

Lemma plausible_size (b : Box) :
  plausible b = true ->
  (6 <= b_x2 b - b_x1 b <= 160 /\ 6 <= b_y2 b - b_y1 b <= 160)%Q.
Proof.
  unfold plausible. cbv zeta. intro P.
  repeat (apply andb_true_iff in P; destruct P as [P ?]).
  repeat match goal with
         | Hn : negb (_ || _) = true |- _ =>
             apply negb_true_iff, orb_false_iff in Hn; destruct Hn
         | Hn : Py.ltb _ _ = false |- _ => apply ltb_ge in Hn
         end.
  repeat split; assumption.
Qed.

Lemma vehicle_row_class (m : Model) (r : RawDet) :
  vehicle_row m r = true -> In (class_name_of m r) VEHICLE_CLASS_NAMES.
Proof.
  unfold vehicle_row, mem_string. intro H.
  apply existsb_exists in H. destruct H as [s [Hs E]].
  apply String.eqb_eq in E. subst s. exact Hs.
Qed.

Lemma in_post_stages (m : Model) (scale : Q) (keep : list RawDet) (d : Detection) :
  In d (post_divide_then_filter m scale keep) ->
  exists r,
    In r keep
    /\ vehicle_row m r = true
    /\ plausible (scale_back scale (r_box r)) = true
    /\ d = detection_of m (scale_back scale (r_box r)) r.
Proof.
  unfold post_divide_then_filter. intro Hd.
  apply in_map_iff in Hd. destruct Hd as [r [<- Hr]].
  apply filter_In in Hr. destruct Hr as [Hr Hp].
  apply filter_In in Hr. destruct Hr as [Hr Hv].
  exists r. auto.
Qed.

Lemma nms_in {A : Type} (box_of : A -> Box) (score_of : A -> Q) (thr : Q)
    (l : list A) (x : A) :
  In x (nms box_of score_of thr l) -> In x l.
Proof.
  unfold nms. intro Hx.
  apply (Subseq_incl _ _ (greedy_subseq box_of thr _)) in Hx.
  eapply Permutation_in; [apply sort_desc_perm|exact Hx].
Qed.

Lemma nms_length {A : Type} (box_of : A -> Box) (score_of : A -> Q) (thr : Q)
    (l : list A) :
  (List.length (nms box_of score_of thr l) <= List.length l)%nat.
Proof.
  unfold nms. rewrite <- (Permutation_length (sort_desc_perm score_of l)).
  apply Subseq_length, greedy_subseq.
Qed.

Lemma detect_cars_ok_inv (H W : Z) (m : Model)
    (conf : Q) (imgsz tile overlap : Z) (iou : Q) (up : bool) (max_det : Z)
    (ds : list Detection) :
  detect_cars H W m conf imgsz tile overlap iou up max_det = Ok ds ->
  exists all,
    collect m (mkPredictArgs conf iou imgsz max_det)
            (tile_windows (resized H (upscale_factor H W up))
                          (resized W (upscale_factor H W up)) tile overlap)
    = Ok all
    /\ ds = post_divide_then_filter m (upscale_factor H W up)
              (nms r_box r_score nms_threshold all).
Proof.
  unfold detect_cars. cbv zeta.
  destruct (collect _ _ _) as [all|e]; [|discriminate].
  cbv beta iota delta [bind]. intro E. exists all. split; [reflexivity|].
  destruct all as [|r all'].
  - injection E as <-. reflexivity.
  - injection E as <-. apply post_loop_stages.
Qed.

(** X27: Every detection returned is of a vehicle class and has a box that is
    not degenerate: between 5 and 161 pixels wide and high. *)
Theorem detect_cars_output_valid (H W : Z) (m : Model)
    (conf : Q) (imgsz tile overlap : Z) (iou : Q) (up : bool) (max_det : Z)
    (ds : list Detection) :
  detect_cars H W m conf imgsz tile overlap iou up max_det = Ok ds ->
  forall d, In d ds ->
    In (cls_name d) VEHICLE_CLASS_NAMES
    /\ 5 <= x2 d - x1 d <= 161
    /\ 5 <= y2 d - y1 d <= 161.
Proof.
  intros E d Hd.
  destruct (detect_cars_ok_inv _ _ _ _ _ _ _ _ _ _ _ E) as [all [_ ->]].
  apply in_post_stages in Hd. destruct Hd as [r [_ [Hv [Hp ->]]]].
  apply plausible_size in Hp. destruct Hp as [[W1 W2] [H1 H2]].
  cbn [detection_of cls_name x1 x2 y1 y2].
  split; [apply vehicle_row_class, Hv|].
  split.
  - exact (int_diff _ _ 6 160 W1 W2).
  - exact (int_diff _ _ 6 160 H1 H2).
Qed.

Lemma detect_cars_output_valid_witness :
  In (cls_name (mkDetection 389 5 409 20 (9 # 10) 0 "car")) VEHICLE_CLASS_NAMES
  /\ 5 <= x2 (mkDetection 389 5 409 20 (9 # 10) 0 "car")
          - x1 (mkDetection 389 5 409 20 (9 # 10) 0 "car") <= 161
  /\ 5 <= y2 (mkDetection 389 5 409 20 (9 # 10) 0 "car")
          - y1 (mkDetection 389 5 409 20 (9 # 10) 0 "car") <= 161.
Proof.
  apply (detect_cars_output_valid 600 600 (zero_on_failure one_bad_tile_model)
           (5 # 100) 1536 1024 256 (1 # 2) true 5000
           [mkDetection 389 5 409 20 (9 # 10) 0 "car"]).
  - reflexivity.
  - left. reflexivity.
Defined.

Lemma collect_in (m : Model) (args : PredictArgs) (ts : list Tile)
    (all : list RawDet) (r' : RawDet) :
  collect m args ts = Ok all -> In r' all ->
  exists t raw r,
    In t ts /\ predict m t args = Ok raw /\ In r raw /\ r' = shift_det t r.
Proof.
  revert all. induction ts as [|t ts IH]; intros all; simpl.
  - intro E. injection E as <-. intros [].
  - destruct (predict m t args) as [raw|e] eqn:P; [|discriminate].
    cbv beta iota delta [bind].
    destruct (collect m args ts) as [rest|e]; [|discriminate].
    intro E. injection E as <-. intro Hin.
    apply in_app_or in Hin. destruct Hin as [Hin|Hin].
    + apply in_map_iff in Hin. destruct Hin as [r [<- Hr]].
      exists t, raw, r. auto.
    + destruct (IH rest eq_refl Hin) as [t' [raw' [r [It [Pt [Ir Er]]]]]].
      exists t', raw', r. auto.
Qed.

(** X28: no detection is made up: every detection returned carries the
    score and the class of a raw box that the model returned for some
    window, and no more detections are returned than raw boxes were
    collected. *)
Theorem detect_cars_provenance (H W : Z) (m : Model)
    (conf0 : Q) (imgsz tile overlap : Z) (iou : Q) (up : bool) (max_det : Z)
    (ds : list Detection) :
  detect_cars H W m conf0 imgsz tile overlap iou up max_det = Ok ds ->
  let scale := upscale_factor H W up in
  let windows := tile_windows (resized H scale) (resized W scale) tile overlap in
  let args := mkPredictArgs conf0 iou imgsz max_det in
  (forall d, In d ds ->
     exists t raw r,
       In t windows /\ predict m t args = Ok raw /\ In r raw
       /\ conf d = r_score r
       /\ cls_id d = Py.int (r_cls r)
       /\ cls_name d = class_name_of m r)
  /\ exists all,
       collect m args windows = Ok all
       /\ (List.length ds <= List.length all)%nat.
Proof.
  intro E. cbv zeta.
  destruct (detect_cars_ok_inv _ _ _ _ _ _ _ _ _ _ _ E) as [all [C ->]].
  split.
  - intros d Hd. apply in_post_stages in Hd.
    destruct Hd as [r' [Hr' [_ [_ ->]]]].
    apply nms_in in Hr'.
    destruct (collect_in _ _ _ _ _ C Hr') as [t [raw [r [It [Pt [Ir ->]]]]]].
    exists t, raw, r. repeat split; assumption || reflexivity.
  - exists all. split; [exact C|].
    unfold post_divide_then_filter. rewrite length_map.
    etransitivity; [apply filter_length_le|].
    etransitivity; [apply filter_length_le|].
    apply nms_length.
Qed.

Lemma detect_cars_provenance_witness :
  exists t raw r,
    In t (tile_windows (resized 600 (upscale_factor 600 600 true))
                       (resized 600 (upscale_factor 600 600 true)) 1024 256)
    /\ predict (zero_on_failure one_bad_tile_model) t
               (mkPredictArgs (5 # 100) (1 # 2) 1536 5000) = Ok raw
    /\ In r raw
    /\ conf (mkDetection 389 5 409 20 (9 # 10) 0 "car") = r_score r
    /\ cls_id (mkDetection 389 5 409 20 (9 # 10) 0 "car") = Py.int (r_cls r)
    /\ cls_name (mkDetection 389 5 409 20 (9 # 10) 0 "car")
       = class_name_of (zero_on_failure one_bad_tile_model) r.
Proof.
  apply (detect_cars_provenance 600 600 (zero_on_failure one_bad_tile_model)
           (5 # 100) 1536 1024 256 (1 # 2) true 5000
           [mkDetection 389 5 409 20 (9 # 10) 0 "car"]).
  - reflexivity.
  - left. reflexivity.
Defined.

Lemma pairs_map {A B : Type} (f : A -> B) (R : B -> B -> Prop) (l : list A) :
  ForallOrdPairs (fun a b => R (f a) (f b)) l -> ForallOrdPairs R (map f l).
Proof.
  induction 1 as [|a l Ha _ IH]; simpl; constructor; [|exact IH].
  apply Forall_forall. intros y Hy. apply in_map_iff in Hy.
  destruct Hy as [x [<- Hx]]. rewrite Forall_forall in Ha. apply Ha, Hx.
Qed.

(** X29: The detections are returned in order of non-increasing confidence (the
    order in which the suppression returns the kept boxes). *)
Theorem detect_cars_sorted_by_conf (H W : Z) (m : Model)
    (conf0 : Q) (imgsz tile overlap : Z) (iou : Q) (up : bool) (max_det : Z)
    (ds : list Detection) :
  detect_cars H W m conf0 imgsz tile overlap iou up max_det = Ok ds ->
  ForallOrdPairs (fun a b => (conf b <= conf a)%Q) ds.
Proof.
  intro E.
  destruct (detect_cars_ok_inv _ _ _ _ _ _ _ _ _ _ _ E) as [all [_ ->]].
  unfold post_divide_then_filter.
  apply pairs_map. cbn [detection_of conf].
  eapply Subseq_pairs; [apply Subseq_filter|].
  eapply Subseq_pairs; [apply Subseq_filter|].
  apply (nms_descending r_box r_score nms_threshold all).
Qed.

Lemma detect_cars_sorted_by_conf_witness :
  ForallOrdPairs (fun a b => (conf b <= conf a)%Q)
    [mkDetection 389 5 409 20 (9 # 10) 0 "car";
     mkDetection 150 50 170 65 (8 # 10) 0 "car";
     mkDetection 50 50 70 65 (5 # 10) 0 "car"].
Proof.
  apply (detect_cars_sorted_by_conf 600 600 busy_model
           (5 # 100) 1536 1024 256 (1 # 2) true 5000).
  reflexivity.
Defined.

Lemma collect_first_failure (m : Model) (args : PredictArgs)
    (pre post : list Tile) (t : Tile) (e : exn) :
  (forall t', In t' pre -> exists raw, predict m t' args = Ok raw) ->
  predict m t args = Raise e ->
  collect m args (pre ++ t :: post) = Raise e.
Proof.
  induction pre as [|t0 pre IH]; intros Hpre Pt; simpl.
  - rewrite Pt. reflexivity.
  - destruct (Hpre t0 (or_introl eq_refl)) as [raw ->].
    cbv beta iota delta [bind].
    rewrite IH; [reflexivity| |exact Pt].
    intros t' Ht'. apply Hpre. right. exact Ht'.
Qed.

(** X30: [detect_cars] raises the exception of the first window, in the order of
    the loops, on which the model call raises, whatever the model does on
    the windows after it. *)
Theorem detect_cars_first_failure (H W : Z) (m : Model)
    (conf : Q) (imgsz tile overlap : Z) (iou : Q) (up : bool) (max_det : Z)
    (pre post : list Tile) (t : Tile) (e : exn) :
  let scale := upscale_factor H W up in
  let args := mkPredictArgs conf iou imgsz max_det in
  tile_windows (resized H scale) (resized W scale) tile overlap = pre ++ t :: post ->
  (forall t', In t' pre -> exists raw, predict m t' args = Ok raw) ->
  predict m t args = Raise e ->
  detect_cars H W m conf imgsz tile overlap iou up max_det = Raise e.
Proof.
  cbv zeta. intros Hw Hpre Pt. unfold detect_cars. cbv zeta.
  rewrite Hw, (collect_first_failure _ _ _ _ _ _ Hpre Pt). reflexivity.
Qed.

Lemma detect_cars_first_failure_witness :
  detect_cars 600 600 two_failures_model (5 # 100) 1536 1024 256 (1 # 2) true 5000
  = Raise (RuntimeError "second window").
Proof.
  apply (detect_cars_first_failure 600 600 two_failures_model
           (5 # 100) 1536 1024 256 (1 # 2) true 5000
           [mkTile 0 0 1024 1024]
           [mkTile 0 768 1024 1200; mkTile 768 768 1200 1200]
           (mkTile 768 0 1200 1024) (RuntimeError "second window")).
  - reflexivity.
  - intros t' [<-|[]]. eexists. reflexivity.
  - reflexivity.
Defined.
